(** * Sequence name resolution (src/sequence-resolution.ts)

    A shallow embedding of [normalizeName] and [resolveSequenceId] and of the
    pagination fixtures of the test-suite, followed by the properties of the
    resolver: fast path, short-circuit on empty input, exact matching,
    first-match selection, exhaustion, the 100-page ceiling, in-order
    pagination, propagation of a rejected fetch, and determinism.

    Two parts of the setup code follow: the parser of the arguments of the
    setup command ([parseSetupArgs]) and the credentials file
    ([saveCredentials], [loadCredentials] of src/setup/env.ts). *)

From Stdlib Require Import List Arith Lia Bool Ascii String DecimalString.
From Equations Require Import Equations.
From Equations.Prop Require Import Logic.
Import ListNotations.
Open Scope string_scope.

(** ** JavaScript strings

    A string is a sequence of code units.  The embedding keeps the code units
    below 256 (Latin-1), one [ascii] each: [String.prototype.trim] and
    [String.prototype.toLowerCase] are modelled on that range, which both
    operations map into itself. *)

Module Js.

(** WhiteSpace and LineTerminator code units below 256: TAB, LF, VT, FF, CR,
    SPACE and NO-BREAK SPACE. *)
Definition isWhiteSpace (c : ascii) : bool :=
  let n := nat_of_ascii c in
  (((9 <=? n) && (n <=? 13)) || (n =? 32) || (n =? 160))%nat.

Fixpoint trimStart (s : string) : string :=
  match s with
  | EmptyString => EmptyString
  | String c rest => if isWhiteSpace c then trimStart rest else s
  end.

Fixpoint trimEnd (s : string) : string :=
  match s with
  | EmptyString => EmptyString
  | String c rest =>
      match trimEnd rest with
      | EmptyString => if isWhiteSpace c then EmptyString else String c EmptyString
      | kept => String c kept
      end
  end.

(** [s.trim()] *)
Definition trim (s : string) : string := trimEnd (trimStart s).

(** Lower-case mapping of one code unit: A-Z, and the Latin-1 capitals
    U+00C0-U+00DE except the multiplication sign U+00D7. *)
Definition toLowerCaseUnit (c : ascii) : ascii :=
  let n := nat_of_ascii c in
  if (((65 <=? n) && (n <=? 90))
      || ((192 <=? n) && (n <=? 222) && negb (n =? 215)))%nat
  then ascii_of_nat (n + 32)
  else c.

(** [s.toLowerCase()] *)
Fixpoint toLowerCase (s : string) : string :=
  match s with
  | EmptyString => EmptyString
  | String c rest => String (toLowerCaseUnit c) (toLowerCase rest)
  end.

(** ToBoolean on a value of type [string | undefined] (or [string | null]):
    only a non-empty string is truthy. *)
Definition toBoolean (v : option string) : bool :=
  match v with
  | None => false
  | Some s => negb (s =? "")
  end.

(** [a === b] on values of type [string | null]. *)
Definition strictEquals (a b : option string) : bool :=
  match a, b with
  | Some x, Some y => x =? y
  | None, None => true
  | _, _ => false
  end.

(** A string made of white space only (the empty string included). *)
Fixpoint isBlank (s : string) : bool :=
  match s with
  | EmptyString => true
  | String c rest => isWhiteSpace c && isBlank rest
  end.

End Js.

(** ** Data model *)

(** [attributes?: { name?: string }] *)
Record Attributes : Type := { name : option string }.

(** [BentoSequence] *)
Module BentoSequence.
Record t : Type := { id : string; attributes : option Attributes }.

(** [sequence.attributes?.name] *)
Definition attributes_name (sequence : t) : option string :=
  match attributes sequence with
  | Some a => name a
  | None => None
  end.
End BentoSequence.

Definition MAX_SEQUENCE_PAGES : nat := 100.

(** [normalizeName]: [null] is [None]. *)
Definition normalizeName (value : option string) : option string :=
  let trimmed := option_map Js.trim value in
  if negb (Js.toBoolean trimmed) then None
  else option_map Js.toLowerCase trimmed.

(** The predicate handed to [sequences.find] in [resolveSequenceId]. *)
Definition matchesName (normalizedSequenceName : option string)
    (sequence : BentoSequence.t) : bool :=
  Js.strictEquals (normalizeName (BentoSequence.attributes_name sequence))
                  normalizedSequenceName.

(** ** Promises and the page fetcher

    [getSequences] is an injected asynchronous function: it may keep state of
    its own and it may reject.  A call is a transition on the state of the
    outside world, [World], that settles either with a page or with a
    rejection reason.  An [Async] computation threads the world through its
    awaits in program order, remembers every call it made to the fetcher, and
    stops at the first rejection, which becomes its own outcome: there is no
    construct to catch it. *)

Section Resolver.

Variables World Reason : Type.

Inductive Settled (A : Type) : Type :=
| Fulfilled (value : A)
| Rejected (reason : Reason).

(** What the promise of [getSequences] resolves to:
    [BentoSequence[] | null | undefined]. *)
Definition Page : Type := option (list BentoSequence.t).

(** [GetSequences]; the argument is the field [page] of [params]. *)
Definition GetSequences : Type := nat -> World -> Settled Page * World.

Record ResolveSequenceIdInput : Type := {
  sequenceId : option string;
  sequenceName : option string;
  getSequences : GetSequences
}.

(** One call of the fetcher: the page asked for and how it settled. *)
Record Call : Type := { page : nat; settled : Settled Page }.

Record Run (A : Type) : Type := {
  outcome : Settled A;
  world : World;
  calls : list Call
}.

Definition Async (A : Type) : Type := World -> Run A.

Definition ret {A : Type} (a : A) : Async A :=
  fun w => {| outcome := Fulfilled A a; world := w; calls := [] |}.

Definition bind {A B : Type} (m : Async A) (k : A -> Async B) : Async B :=
  fun w =>
    let r := m w in
    match outcome A r with
    | Fulfilled _ a =>
        let r' := k a (world A r) in
        {| outcome := outcome B r';
           world := world B r';
           calls := (calls A r ++ calls B r')%list |}
    | Rejected _ e =>
        {| outcome := Rejected B e; world := world A r; calls := calls A r |}
    end.

(** [await getSequences({ page })] *)
Definition await_getSequences (getSequences : GetSequences) (page : nat)
  : Async Page :=
  fun w =>
    let (s, w') := getSequences page w in
    {| outcome := s; world := w'; calls := [ {| page := page; settled := s |} ] |}.

Notation "x <- m ;; k" := (bind m (fun x => k))
  (at level 61, m at next level, right associativity).

#[local] Opaque MAX_SEQUENCE_PAGES.

(** The [while (page <= MAX_SEQUENCE_PAGES)] loop of [resolveSequenceId],
    entered with the current value of [page]. *)
Equations? resolveSequenceId_loop (getSequences : GetSequences)
    (normalizedSequenceName : option string) (page : nat)
  : Async (option string) by wf (MAX_SEQUENCE_PAGES + 1 - page) lt :=
  resolveSequenceId_loop getSequences normalizedSequenceName page
    with inspect (page <=? MAX_SEQUENCE_PAGES)%nat := {
    | exist _ true Hle =>
        sequences <- await_getSequences getSequences page ;;
        match sequences with
        | None => ret None
        | Some sequences =>
            if (List.length sequences =? 0)%nat then ret None
            else
              match find (matchesName normalizedSequenceName) sequences with
              | Some found => ret (Some (BentoSequence.id found))
              | None =>
                  resolveSequenceId_loop getSequences normalizedSequenceName
                                         (page + 1)
              end
        end
    | exist _ false _ => ret None }.
Proof.
  apply Nat.leb_le in Hle. lia.
Qed.

#[local] Transparent MAX_SEQUENCE_PAGES.

(** [resolveSequenceId] *)
Definition resolveSequenceId (input : ResolveSequenceIdInput)
  : Async (option string) :=
  let normalizedSequenceId := option_map Js.trim (sequenceId input) in
  if Js.toBoolean normalizedSequenceId then ret normalizedSequenceId
  else
    let normalizedSequenceName := normalizeName (sequenceName input) in
    if negb (Js.toBoolean normalizedSequenceName) then ret None
    else resolveSequenceId_loop (getSequences input) normalizedSequenceName 1.

End Resolver.

Arguments Fulfilled {Reason A} value.
Arguments Rejected {Reason A} reason.
Arguments Build_Call {Reason} page settled.
Arguments page {Reason} c.
Arguments settled {Reason} c.
Arguments Build_Run {World Reason A} outcome world calls.
Arguments outcome {World Reason A} r.
Arguments world {World Reason A} r.
Arguments calls {World Reason A} r.
Arguments Build_ResolveSequenceIdInput {World Reason} sequenceId sequenceName getSequences.
Arguments sequenceId {World Reason} r.
Arguments sequenceName {World Reason} r.
Arguments getSequences {World Reason} r.
Arguments ret {World Reason A} a w.
Arguments bind {World Reason A B} m k w.
Arguments await_getSequences {World Reason} getSequences page w.
Arguments resolveSequenceId_loop {World Reason} getSequences normalizedSequenceName page w.
Arguments resolveSequenceId {World Reason} input w.

(** The page numbers of a list of calls, in the order of the calls. *)
Definition pagesOf {Reason : Type} (cs : list (Call Reason)) : list nat :=
  map page cs.

(** The page numbers a run asked for. *)
Definition requested {World Reason A : Type} (r : Run World Reason A) : list nat :=
  pagesOf (calls r).

(** ** Test fixtures (tests/fixtures/sequences-pagination.ts and the test file) *)

Module Fixtures.

(** [`${page}`] *)
Definition decimal (n : nat) : string :=
  DecimalString.NilEmpty.string_of_uint (Nat.to_uint n).

(** [Record<number, BentoSequence[]>]: a missing key reads [undefined]. *)
Definition PagedSequences : Type := nat -> option (list BentoSequence.t).

Definition empty : PagedSequences := fun _ => None.

(** [pages[key] = value] *)
Definition set (pages : PagedSequences) (key : nat)
    (value : list BentoSequence.t) : PagedSequences :=
  fun k => if (k =? key)%nat then Some value else pages k.

Definition named (i n : string) : BentoSequence.t :=
  {| BentoSequence.id := i;
     BentoSequence.attributes := Some {| name := Some n |} |}.

(** [createPagesWithMatchOnPage]; [None] when [pages[matchPage].push]
    throws because the loop never filled page [matchPage]. *)
Definition createPagesWithMatchOnPage (matchPage : nat) (matchName : string)
  : option PagedSequences :=
  let pages :=
    fold_left
      (fun pages page =>
         set pages page
           [ named ("sequence_" ++ decimal page ++ "_a")
                   ("Sequence " ++ decimal page ++ " A");
             named ("sequence_" ++ decimal page ++ "_b")
                   ("Sequence " ++ decimal page ++ " B") ])
      (seq 1 matchPage) empty in
  match pages matchPage with
  | Some filler =>
      Some (set pages matchPage
              (filler ++ [ named ("sequence_match_page_" ++ decimal matchPage)
                                 matchName ])%list)
  | None => None
  end.

Definition createNearMatchThenExactPages : PagedSequences :=
  set (set empty 1 [ named "sequence_near_match" "Welcome Flow Extended" ])
      2 [ named "sequence_exact_match" "  WELCOME FLOW  " ].

Definition createNoMatchPages : PagedSequences :=
  set (set (set empty 1 [ named "sequence_first" "Welcome Sequence" ])
           2 [ named "sequence_second" "Post Purchase" ])
      3 [ named "sequence_third" "Newsletter" ].

(** [buildGetSequencesFromPages]: the world of this fetcher is its array
    [requestedPages]; it never rejects. *)
Definition buildGetSequencesFromPages (pages : PagedSequences)
  : GetSequences (list nat) string :=
  fun page requestedPages =>
    (Fulfilled (Some (match pages page with Some p => p | None => [] end)),
     (requestedPages ++ [page])%list).

(** The fetcher of the last test: one synthetic sequence on every page. *)
Definition neverExhausted : GetSequences (list nat) string :=
  fun page requestedPages =>
    (Fulfilled (Some [ named ("sequence_" ++ decimal page)
                             ("Sequence " ++ decimal page) ]),
     (requestedPages ++ [page])%list).

End Fixtures.


(** ** One turn of the loop, and the runs of the loop as a relation *)

Section Pagination.

Context {World Reason : Type}.
Variable getSequences : GetSequences World Reason.
Variable normalizedSequenceName : option string.

(** What the body of the loop does once the awaited fetch has settled:
    leave [resolveSequenceId] with a result, or go on with [page += 1]. *)
Inductive Turn : Type :=
| Leave (result : Settled Reason (option string))
| NextPage.

Definition turn (s : Settled Reason Page) : Turn :=
  match s with
  | Rejected e => Leave (Rejected e)
  | Fulfilled None => Leave (Fulfilled None)
  | Fulfilled (Some sequences) =>
      if (List.length sequences =? 0)%nat then Leave (Fulfilled None)
      else
        match find (matchesName normalizedSequenceName) sequences with
        | Some found => Leave (Fulfilled (Some (BentoSequence.id found)))
        | None => NextPage
        end
  end.

(** [Paginates page w cs res w']: the loop entered with [page] in world [w]
    makes the calls [cs], in that order, ends with [res] and leaves the
    world [w']. *)
Inductive Paginates
  : nat -> World -> list (Call Reason) -> Settled Reason (option string)
    -> World -> Prop :=
| Paginates_ceiling page w :
    MAX_SEQUENCE_PAGES < page ->
    Paginates page w [] (Fulfilled None) w
| Paginates_leave page w s w' res :
    page <= MAX_SEQUENCE_PAGES ->
    getSequences page w = (s, w') ->
    turn s = Leave res ->
    Paginates page w [Build_Call page s] res w'
| Paginates_next page w s w' cs res w'' :
    page <= MAX_SEQUENCE_PAGES ->
    getSequences page w = (s, w') ->
    turn s = NextPage ->
    Paginates (page + 1) w' cs res w'' ->
    Paginates page w (Build_Call page s :: cs) res w''.

End Pagination.

Arguments Leave {Reason} result.
Arguments NextPage {Reason}.

(** A page on which no sequence has the wanted name. *)
Definition noMatch (normalizedSequenceName : option string)
    (sequences : list BentoSequence.t) : Prop :=
  forall sequence, In sequence sequences ->
    normalizeName (BentoSequence.attributes_name sequence)
    <> normalizedSequenceName.

(** A fetcher whose answer depends on the page asked for only. *)
Definition deterministic {World Reason : Type}
    (getSequences : GetSequences World Reason) : Prop :=
  forall page w1 w2, fst (getSequences page w1) = fst (getSequences page w2).

(** A test double that rejects on one page and behaves like
    [Fixtures.neverExhausted] on the others. *)
Definition rejectingOn (failing : nat) : GetSequences (list nat) string :=
  fun page requestedPages =>
    if (page =? failing)%nat
    then (Rejected "503 Service Unavailable", (requestedPages ++ [page])%list)
    else Fixtures.neverExhausted page requestedPages.

(** A test double with the wanted name more than once: twice on page 2 and
    again on page 3. *)
Definition duplicatedNamePages : Fixtures.PagedSequences :=
  Fixtures.set
    (Fixtures.set
       (Fixtures.set Fixtures.empty 1
          [ Fixtures.named "sequence_other" "Onboarding" ])
       2 [ Fixtures.named "sequence_filler" "Welcome Flow Extended";
           Fixtures.named "sequence_dup_a" "Welcome Flow";
           Fixtures.named "sequence_dup_b" " welcome flow " ])
    3 [ Fixtures.named "sequence_dup_c" "WELCOME FLOW" ].

(** ** Auxiliary notions for the further properties *)

(** The world after asking a fetcher for the given pages, one after the
    other. *)
Definition replay {World Reason : Type}
    (getSequences : GetSequences World Reason) (w : World) (pages : list nat)
  : World :=
  fold_left (fun v p => snd (getSequences p v)) pages w.

(** The longest prefix of a list on which a test holds. *)
Fixpoint takeWhile {A : Type} (p : A -> bool) (l : list A) : list A :=
  match l with
  | [] => []
  | x :: rest => if p x then x :: takeWhile p rest else []
  end.

(** What [buildGetSequencesFromPages] answers for a page:
    [pages[page] ?? []]. *)
Definition pageOrEmpty (pages : Fixtures.PagedSequences) (page : nat)
  : list BentoSequence.t :=
  match pages page with Some p => p | None => [] end.

(** The sequences that a table of pages lists within the reach of the
    resolver: pages 1, 2, ... up to the first empty one, and at most
    [MAX_SEQUENCE_PAGES] of them, one after the other. *)
Definition listed (pages : Fixtures.PagedSequences) : list BentoSequence.t :=
  List.concat
    (takeWhile (fun sequences => negb (List.length sequences =? 0)%nat)
       (map (pageOrEmpty pages) (seq 1 MAX_SEQUENCE_PAGES))).

(** Three queries on the fixtures, for use as examples. *)
Definition welcomeFlowQuery : ResolveSequenceIdInput (list nat) string :=
  {| sequenceId := None;
     sequenceName := Some "welcome flow";
     getSequences :=
       Fixtures.buildGetSequencesFromPages
         Fixtures.createNearMatchThenExactPages |}.

Definition missingQuery : ResolveSequenceIdInput (list nat) string :=
  {| sequenceId := None;
     sequenceName := Some "does not exist";
     getSequences :=
       Fixtures.buildGetSequencesFromPages Fixtures.createNoMatchPages |}.

Definition rejectedQuery : ResolveSequenceIdInput (list nat) string :=
  {| sequenceId := None;
     sequenceName := Some "does not exist";
     getSequences := rejectingOn 3 |}.

(** The two filler sequences that [createPagesWithMatchOnPage] puts on every
    page, and the sequence that it pushes on the last one. *)
Definition fillerPage (page : nat) : list BentoSequence.t :=
  [ Fixtures.named ("sequence_" ++ Fixtures.decimal page ++ "_a")
                   ("Sequence " ++ Fixtures.decimal page ++ " A");
    Fixtures.named ("sequence_" ++ Fixtures.decimal page ++ "_b")
                   ("Sequence " ++ Fixtures.decimal page ++ " B") ].

Definition matchEntry (matchPage : nat) (matchName : string) : BentoSequence.t :=
  Fixtures.named ("sequence_match_page_" ++ Fixtures.decimal matchPage) matchName.

(** ** The arguments of the setup command (src/setup, [parseSetupArgs])

    [process.exit] ends the run: the parser either returns the options or
    exits with a code, after one call of [console.error] or of
    [printSetupHelp]. *)

Module SetupCli.

(** [SetupOptions]: every field is optional. *)
Record SetupOptions : Type := {
  client : option string;
  yes : option bool;
  dryRun : option bool;
  print : option bool;
  writeSecrets : option bool
}.

(** [const options: SetupOptions = {}] *)
Definition noOptions : SetupOptions :=
  {| client := None; yes := None; dryRun := None; print := None;
     writeSecrets := None |}.

Inductive Parsed : Type :=
| Returns (options : SetupOptions)
| Exits (code : nat) (printed : string).

Definition validClients : list string :=
  ["claude-code"; "claude-desktop"; "cursor"; "opencode"; "all"].

(** [validClients.includes(clientArg)] *)
Definition includes (l : list string) (x : string) : bool :=
  existsb (String.eqb x) l.

(** [validClients.join(", ")] *)
Definition join (separator : string) (l : list string) : string :=
  String.concat separator l.

(** The text of the [console.error] call; [clientArg] is [undefined] when
    [--client] is the last argument. *)
Definition invalidClient (clientArg : option string) : string :=
  "Invalid client: "
  ++ (if Js.toBoolean clientArg
      then match clientArg with Some a => a | None => "" end
      else "(missing)")
  ++ ". Valid options: " ++ join ", " validClients.

(** The text that [printSetupHelp] prints. *)
Definition setupHelp : string :=
  "
Bento MCP Setup

Usage: bento-mcp setup [options]

Options:
  --client <name>    Configure a specific client:
                     claude-code, claude-desktop, cursor, opencode
  --all              Configure all supported clients
  --yes, -y          Non-interactive mode (requires env vars)
  --dry-run          Show what would be done without making changes
  --print            Print the MCP config block and exit
  --write-secrets    Embed secrets directly in config files
  --help, -h         Show this help message

Examples:
  npx @bentonow/bento-mcp setup
  npx @bentonow/bento-mcp setup --client claude-code
  npx @bentonow/bento-mcp setup --client opencode
  npx @bentonow/bento-mcp setup --all --yes
  npx @bentonow/bento-mcp setup --dry-run
".

(** The [for] loop of [parseSetupArgs] on the arguments from index [i] on,
    with the options set so far; [args[++i]] is the head of what follows
    [--client]. *)
Fixpoint parseSetupArgs_loop (args : list string) (options : SetupOptions)
  : Parsed :=
  match args with
  | [] => Returns options
  | arg :: rest =>
      if (arg =? "--client")%string then
        match rest with
        | [] => Exits 1 (invalidClient None)
        | clientArg :: rest' =>
            if negb (Js.toBoolean (Some clientArg))
               || negb (includes validClients clientArg)
            then Exits 1 (invalidClient (Some clientArg))
            else
              parseSetupArgs_loop rest'
                {| client := Some clientArg; yes := yes options;
                   dryRun := dryRun options; print := print options;
                   writeSecrets := writeSecrets options |}
        end
      else if (arg =? "--all")%string then
        parseSetupArgs_loop rest
          {| client := Some "all"; yes := yes options;
             dryRun := dryRun options; print := print options;
             writeSecrets := writeSecrets options |}
      else if (arg =? "--yes")%string || (arg =? "-y")%string then
        parseSetupArgs_loop rest
          {| client := client options; yes := Some true;
             dryRun := dryRun options; print := print options;
             writeSecrets := writeSecrets options |}
      else if (arg =? "--dry-run")%string then
        parseSetupArgs_loop rest
          {| client := client options; yes := yes options;
             dryRun := Some true; print := print options;
             writeSecrets := writeSecrets options |}
      else if (arg =? "--print")%string then
        parseSetupArgs_loop rest
          {| client := client options; yes := yes options;
             dryRun := dryRun options; print := Some true;
             writeSecrets := writeSecrets options |}
      else if (arg =? "--write-secrets")%string then
        parseSetupArgs_loop rest
          {| client := client options; yes := yes options;
             dryRun := dryRun options; print := print options;
             writeSecrets := Some true |}
      else if (arg =? "--help")%string || (arg =? "-h")%string then
        Exits 0 setupHelp
      else parseSetupArgs_loop rest options
  end.

(** [parseSetupArgs] *)
Definition parseSetupArgs (args : list string) : Parsed :=
  parseSetupArgs_loop args noOptions.

(** The client that the last [--client c] or [--all] among the arguments
    sets. *)
Definition lastClient (args : list string) (c : string) : Prop :=
  exists before after,
    (args = (before ++ "--client" :: c :: after)%list
     \/ (args = (before ++ "--all" :: after)%list /\ c = "all"))
    /\ includes after "--client" = false
    /\ includes after "--all" = false.

End SetupCli.

(** ** The credentials file (src/setup/env.ts)

    [saveCredentials] is modelled by the calls it makes to the file system,
    in order, when none of them fails; [loadCredentials] by its result as a
    function of what [existsSync] and [readFile] give ([None] for a
    [readFile] that throws). *)

Module Env.

Record Credentials : Type := {
  publishableKey : string;
  secretKey : string;
  siteUuid : string
}.








Definition LF : ascii := "010"%char.
Definition CR : ascii := "013"%char.

(** Puts a character in front of the first piece. *)
Definition consHead (c : ascii) (pieces : list string) : list string :=
  match pieces with
  | [] => [String c ""]
  | piece :: others => String c piece :: others
  end.

(** [content.split(/\r?\n/)] *)
Fixpoint splitLines (content : string) : list string :=
  match content with
  | EmptyString => [""]
  | String c rest =>
      if Ascii.eqb c LF then "" :: splitLines rest
      else if Ascii.eqb c CR then
        match rest with
        | String c' rest' =>
            if Ascii.eqb c' LF then "" :: splitLines rest'
            else consHead c (splitLines rest)
        | EmptyString => consHead c (splitLines rest)
        end
      else consHead c (splitLines rest)
  end.

(** [s.startsWith(prefix)] *)
Fixpoint startsWith (s prefix : string) {struct prefix} : bool :=
  match prefix, s with
  | EmptyString, _ => true
  | String p prefix', String c s' => Ascii.eqb c p && startsWith s' prefix'
  | String _ _, EmptyString => false
  end.

(** [s.slice(start)] for a [start] that is not negative. *)
Fixpoint slice (s : string) (start : nat) {struct start} : string :=
  match start, s with
  | 0, _ => s
  | S n, String _ s' => slice s' n
  | S _, EmptyString => EmptyString
  end.

(** One turn of the [for] loop of [loadCredentials] on the three variables
    [publishableKey], [secretKey] and [siteUuid]. *)
Definition readLine (found : string * string * string) (line : string)
  : string * string * string :=
  let '(publishableKey, secretKey, siteUuid) := found in
  let trimmed := Js.trim line in
  if startsWith trimmed "BENTO_PUBLISHABLE_KEY=" then
    (slice trimmed (String.length "BENTO_PUBLISHABLE_KEY="), secretKey, siteUuid)
  else if startsWith trimmed "BENTO_SECRET_KEY=" then
    (publishableKey, slice trimmed (String.length "BENTO_SECRET_KEY="), siteUuid)
  else if startsWith trimmed "BENTO_SITE_UUID=" then
    (publishableKey, secretKey, slice trimmed (String.length "BENTO_SITE_UUID="))
  else found.

(** [loadCredentials]; [fileExists] is what [existsSync(filePath)] gives and
    [read] what [readFile] resolves to, [None] when it throws. *)
Definition loadCredentials (fileExists : bool) (read : option string)
  : option Credentials :=
  if negb fileExists then None
  else
    match read with
    | None => None
    | Some content =>
        let lines := splitLines content in
        let '(publishableKey, secretKey, siteUuid) :=
          fold_left readLine lines ("", "", "") in
        if Js.toBoolean (Some publishableKey)
           && Js.toBoolean (Some secretKey)
           && Js.toBoolean (Some siteUuid)
        then Some {| publishableKey := publishableKey;
                     secretKey := secretKey;
                     siteUuid := siteUuid |}
        else None
    end.



End Env.

(** * Properties *)

(** ** Strings *)

Lemma trimStart_blank (s : string) : Js.isBlank s = true -> Js.trimStart s = "".
Proof.
  induction s as [|c rest IH]; simpl; [reflexivity|].
  intros H. apply andb_true_iff in H as [Hc Hrest].
  rewrite Hc. auto.
Qed.

Lemma trim_blank (s : string) : Js.isBlank s = true -> Js.trim s = "".
Proof.
  intros H. unfold Js.trim. rewrite (trimStart_blank s H). reflexivity.
Qed.

Lemma trimEnd_empty (s : string) : Js.trimEnd s = "" -> Js.isBlank s = true.
Proof.
  induction s as [|c rest IH]; simpl; [reflexivity|].
  destruct (Js.trimEnd rest) eqn:E.
  - destruct (Js.isWhiteSpace c); [intros _; auto | discriminate].
  - discriminate.
Qed.

Lemma isBlank_trimStart (s : string) :
  Js.isBlank (Js.trimStart s) = Js.isBlank s.
Proof.
  induction s as [|c rest IH]; simpl; [reflexivity|].
  destruct (Js.isWhiteSpace c) eqn:E; simpl; [assumption | rewrite E; reflexivity].
Qed.

(** [trim] gives the empty string exactly on the strings of white space. *)
Lemma trim_empty_iff (s : string) : Js.trim s = "" <-> Js.isBlank s = true.
Proof.
  split; [|apply trim_blank].
  unfold Js.trim. intros H. apply trimEnd_empty in H.
  rewrite isBlank_trimStart in H. exact H.
Qed.

Lemma toLowerCase_empty (s : string) : Js.toLowerCase s = "" -> s = "".
Proof. destruct s; simpl; [reflexivity | discriminate]. Qed.

Lemma toBoolean_true (v : option string) :
  Js.toBoolean v = true <-> exists s, v = Some s /\ s <> "".
Proof.
  destruct v as [s|]; simpl.
  - rewrite negb_true_iff. split.
    + intros H. exists s. split; [reflexivity|]. now apply String.eqb_neq.
    + intros (s' & [= <-] & Hne). now apply String.eqb_neq.
  - split; [discriminate | intros (s & [=] & _)].
Qed.

Lemma toBoolean_false (v : option string) :
  Js.toBoolean v = false <-> v = None \/ v = Some "".
Proof.
  destruct v as [s|]; simpl.
  - rewrite negb_false_iff, String.eqb_eq. split.
    + intros ->. now right.
    + intros [[=]|[= ->]]. reflexivity.
  - split; auto.
Qed.

Lemma strictEquals_eq (a b : option string) :
  Js.strictEquals a b = true <-> a = b.
Proof.
  destruct a as [x|], b as [y|]; simpl; try (split; congruence).
  rewrite String.eqb_eq. split; congruence.
Qed.

Lemma trimStart_decompose (s : string) :
  exists l, Js.isBlank l = true /\ s = l ++ Js.trimStart s.
Proof.
  induction s as [|c rest (l & Hl & IH)]; cbn [Js.trimStart].
  - exists "". split; reflexivity.
  - destruct (Js.isWhiteSpace c) eqn:Hc.
    + exists (String c l). cbn [Js.isBlank append]. rewrite Hc, Hl, <- IH.
      split; reflexivity.
    + exists "". split; reflexivity.
Qed.

Lemma trimEnd_decompose (s : string) :
  exists r, Js.isBlank r = true /\ s = Js.trimEnd s ++ r.
Proof.
  induction s as [|c rest (r & Hr & IH)]; cbn [Js.trimEnd].
  - exists "". split; reflexivity.
  - destruct (Js.trimEnd rest) as [|a kept] eqn:E.
    + cbn [append] in IH. subst r.
      destruct (Js.isWhiteSpace c) eqn:Hc.
      * exists (String c rest). cbn [Js.isBlank append]. rewrite Hc, Hr.
        split; reflexivity.
      * exists rest. split; [exact Hr | reflexivity].
    + exists r. split; [exact Hr|]. cbn [append] in *. now rewrite <- IH.
Qed.

(** [trim] removes a prefix and a suffix of white space, and nothing else. *)
Lemma trim_decompose (s : string) :
  exists l r,
    Js.isBlank l = true /\ Js.isBlank r = true /\ s = l ++ Js.trim s ++ r.
Proof.
  destruct (trimStart_decompose s) as (l & Hl & Hs).
  destruct (trimEnd_decompose (Js.trimStart s)) as (r & Hr & Ht).
  exists l, r. unfold Js.trim. rewrite <- Ht. auto.
Qed.

(** What [trim] leaves starts with a visible character. *)
Lemma trim_head (s : string) (c : ascii) (rest : string) :
  Js.trim s = String c rest -> Js.isWhiteSpace c = false.
Proof.
  unfold Js.trim. intros H.
  assert (forall t, Js.trimStart t = "" \/ exists a k,
             Js.trimStart t = String a k /\ Js.isWhiteSpace a = false) as Hstart.
  { induction t as [|a k IH]; cbn [Js.trimStart]; [now left|].
    destruct (Js.isWhiteSpace a) eqn:Ha; [exact IH | right; eauto]. }
  destruct (Hstart s) as [E|(a & k & E & Ha)]; rewrite E in H.
  - discriminate.
  - cbn [Js.trimEnd] in H. rewrite Ha in H.
    destruct (Js.trimEnd k); injection H as <- _; exact Ha.
Qed.

(** ** [normalizeName] *)

Lemma normalizeName_None : normalizeName None = None.
Proof. reflexivity. Qed.

Lemma normalizeName_Some (s : string) :
  normalizeName (Some s) =
  if (Js.trim s =? "")%string then None else Some (Js.toLowerCase (Js.trim s)).
Proof.
  unfold normalizeName. simpl. destruct (Js.trim s =? "")%string; reflexivity.
Qed.

Lemma normalizeName_blank (s : string) :
  Js.isBlank s = true -> normalizeName (Some s) = None.
Proof.
  intros H. rewrite normalizeName_Some, (trim_blank s H). reflexivity.
Qed.

(** The result of [normalizeName] is [null] or a non-empty string, so that
    [!normalizedSequenceName] holds exactly when it is [null]. *)
Lemma normalizeName_truthy (value : option string) :
  Js.toBoolean (normalizeName value) = false <-> normalizeName value = None.
Proof.
  rewrite toBoolean_false. split; [|auto].
  intros [H|H]; [exact H|]. exfalso.
  destruct value as [s|]; [|discriminate].
  rewrite normalizeName_Some in H.
  destruct (Js.trim s =? "")%string eqn:E; [discriminate|].
  injection H as H. apply toLowerCase_empty in H.
  apply String.eqb_neq in E. contradiction.
Qed.

Lemma matchesName_eq (normalizedSequenceName : option string)
    (sequence : BentoSequence.t) :
  matchesName normalizedSequenceName sequence = true <->
  normalizeName (BentoSequence.attributes_name sequence) = normalizedSequenceName.
Proof. apply strictEquals_eq. Qed.

Lemma matchesName_false (normalizedSequenceName : option string)
    (sequence : BentoSequence.t) :
  matchesName normalizedSequenceName sequence = false <->
  normalizeName (BentoSequence.attributes_name sequence) <> normalizedSequenceName.
Proof.
  rewrite <- matchesName_eq. destruct (matchesName _ _); split; congruence.
Qed.

(** [Array.prototype.find] gives the first element, in the order of the
    array, on which the predicate holds. *)
Lemma find_first {A : Type} (p : A -> bool) (l : list A) (x : A) :
  find p l = Some x <->
  exists before after,
    l = (before ++ x :: after)%list /\ p x = true
    /\ forall y, In y before -> p y = false.
Proof.
  induction l as [|a l IH]; simpl.
  - split; [discriminate|]. intros (before & after & H & _).
    destruct before; discriminate.
  - destruct (p a) eqn:Ea; split.
    + intros [= ->]. exists [], l. repeat split; auto. intros y [].
    + intros ([|b before] & after & H & Hx & Hb); simpl in H.
      * congruence.
      * injection H as -> _. rewrite (Hb b) in Ea by (left; reflexivity).
        discriminate.
    + intros H. apply IH in H as (before & after & -> & Hx & Hb).
      exists (a :: before), after. repeat split; auto.
      intros y [<-|Hy]; auto.
    + intros ([|b before] & after & H & Hx & Hb); simpl in H.
      * injection H as -> _. congruence.
      * injection H as _ ->. apply IH. exists before, after.
        repeat split; auto. intros y Hy. apply Hb. now right.
Qed.

Lemma find_none_noMatch (normalizedSequenceName : option string)
    (sequences : list BentoSequence.t) :
  find (matchesName normalizedSequenceName) sequences = None <->
  noMatch normalizedSequenceName sequences.
Proof.
  unfold noMatch. split.
  - intros H sequence Hin. apply matchesName_false.
    exact (find_none _ _ H sequence Hin).
  - intros H. destruct (find _ sequences) as [found|] eqn:E; [|reflexivity].
    apply find_some in E as [Hin Hm]. apply matchesName_eq in Hm.
    now apply H in Hin.
Qed.

(** ** The loop *)

Section LoopFacts.

Context {World Reason : Type}.
Variable getSequences : GetSequences World Reason.
Variable normalizedSequenceName : option string.

#[local] Abbreviation loop := (resolveSequenceId_loop getSequences normalizedSequenceName).
#[local] Abbreviation turnFor := (turn normalizedSequenceName).
#[local] Abbreviation Runs := (Paginates getSequences normalizedSequenceName).

(** The loop as the source has it: test, body, and the loop again. *)
Lemma resolveSequenceId_loop_eq (page : nat) :
  loop page =
  if (page <=? MAX_SEQUENCE_PAGES)%nat then
    bind (await_getSequences getSequences page)
      (fun sequences =>
         match sequences with
         | None => ret None
         | Some sequences =>
             if (List.length sequences =? 0)%nat then ret None
             else
               match find (matchesName normalizedSequenceName) sequences with
               | Some found => ret (Some (BentoSequence.id found))
               | None => loop (page + 1)
               end
         end)
  else ret None.
Proof.
  rewrite resolveSequenceId_loop_equation_1. unfold inspect.
  generalize (@eq_refl bool (page <=? MAX_SEQUENCE_PAGES)%nat).
  generalize (page <=? MAX_SEQUENCE_PAGES)%nat at 2 4 5.
  intros [] e; reflexivity.
Qed.

(** One turn of the loop on a run. *)
Lemma resolveSequenceId_loop_run (page : nat) (w : World) :
  loop page w =
  if (page <=? MAX_SEQUENCE_PAGES)%nat then
    let (s, w') := getSequences page w in
    match turnFor s with
    | Leave res => Build_Run res w' [Build_Call page s]
    | NextPage =>
        let r := loop (page + 1) w' in
        Build_Run (outcome r) (world r) (Build_Call page s :: calls r)
    end
  else Build_Run (Fulfilled None) w [].
Proof.
  rewrite resolveSequenceId_loop_eq.
  destruct (page <=? MAX_SEQUENCE_PAGES)%nat; [|reflexivity].
  unfold bind, await_getSequences.
  destruct (getSequences page w) as [s w']. cbn [outcome world calls].
  destruct s as [[sequences|]|e]; cbn [turn]; try reflexivity.
  destruct (List.length sequences =? 0)%nat; [reflexivity|].
  destruct (find _ sequences); reflexivity.
Qed.

(** Every run of the loop is a derivation of [Paginates]. *)
Lemma resolveSequenceId_loop_paginates (page : nat) (w : World) :
  Runs page w (calls (loop page w)) (outcome (loop page w))
            (world (loop page w)).
Proof.
  remember (MAX_SEQUENCE_PAGES + 1 - page) as left eqn:Hleft.
  revert page w Hleft.
  induction left as [|left IH]; intros page w Hleft;
    rewrite resolveSequenceId_loop_run;
    destruct (Nat.leb_spec page MAX_SEQUENCE_PAGES) as [Hle|Hgt];
    try lia.
  - now apply Paginates_ceiling.
  - destruct (getSequences page w) as [s w'] eqn:Hget.
    destruct (turnFor s) as [res|] eqn:Hturn; cbn [outcome world calls].
    + now apply Paginates_leave with (w' := w').
    + apply Paginates_next with (w' := w'); auto.
      apply IH. lia.
Qed.

(** *** What a derivation says about the calls *)

(** Pages are asked for in order, one by one, and never past the ceiling. *)
Lemma Paginates_requested start w cs res w' :
  Runs start w cs res w' ->
  pagesOf cs = seq start (List.length cs)
  /\ (cs <> [] -> start + List.length cs <= MAX_SEQUENCE_PAGES + 1).
Proof.
  unfold pagesOf.
  induction 1 as [p w Hgt | p w s w' res Hle Hget Hturn
                 | p w s w' cs res w'' Hle Hget Hturn Hrest [IHreq IHlen]];
    cbn [map List.length seq page].
  - split; [reflexivity | congruence].
  - split; [reflexivity | intros _; lia].
  - split.
    + rewrite IHreq. replace (p + 1) with (S p) by lia. reflexivity.
    + intros _. destruct cs as [|c cs]; [cbn [List.length]; lia|].
      assert (c :: cs <> []) as Hne by discriminate.
      specialize (IHlen Hne). cbn [List.length] in *. lia.
Qed.

(** The call on which a turn leaves is the last one and fixes the result;
    all calls before it sent the loop to the next page. *)
Lemma Paginates_leaves page w cs res w' :
  Runs page w cs res w' ->
  forall c r, In c cs -> turnFor (settled c) = Leave r ->
    res = r
    /\ exists earlier,
         cs = (earlier ++ [c])%list
         /\ Forall (fun c' => turnFor (settled c') = NextPage) earlier.
Proof.
  induction 1 as [page w Hgt | page w s w' res Hle Hget Hturn
                 | page w s w' cs res w'' Hle Hget Hturn Hrest IH];
    intros c r Hin Hc.
  - destruct Hin.
  - destruct Hin as [<-|[]]. cbn [settled] in Hc.
    split; [congruence|]. exists []. split; [reflexivity | constructor].
  - destruct Hin as [<-|Hin].
    + cbn [settled] in Hc. congruence.
    + destruct (IH c r Hin Hc) as (-> & earlier & -> & Hall).
      split; [reflexivity|].
      exists (Build_Call page s :: earlier). split; [reflexivity|].
      constructor; assumption.
Qed.

(** When no turn leaves, the loop runs into the ceiling. *)
Lemma Paginates_never_leaves start w cs res w' :
  Runs start w cs res w' ->
  (forall p v, turnFor (fst (getSequences p v)) = NextPage) ->
  res = Fulfilled None
  /\ pagesOf cs = seq start (MAX_SEQUENCE_PAGES + 1 - start).
Proof.
  intros H Hnext. unfold pagesOf.
  induction H as [p w Hgt | p w s w' res Hle Hget Hturn
                 | p w s w' cs res w'' Hle Hget Hturn Hrest [IHres IHreq]].
  - split; [reflexivity|].
    replace (MAX_SEQUENCE_PAGES + 1 - p) with 0 by lia. reflexivity.
  - specialize (Hnext p w). rewrite Hget in Hnext. cbn [fst] in Hnext.
    congruence.
  - split; [assumption|]. cbn [map page]. rewrite IHreq.
    replace (MAX_SEQUENCE_PAGES + 1 - p)
      with (S (MAX_SEQUENCE_PAGES + 1 - (p + 1))) by lia.
    replace (p + 1) with (S p) by lia. reflexivity.
Qed.

(** The same calls and the same result from any two worlds, when the
    fetcher answers by the page number alone. *)
Lemma Paginates_deterministic page w1 cs1 res1 w1' :
  Runs page w1 cs1 res1 w1' ->
  deterministic getSequences ->
  forall w2 cs2 res2 w2',
    Runs page w2 cs2 res2 w2' -> cs1 = cs2 /\ res1 = res2.
Proof.
  intros H Hdet.
  induction H as [page w Hgt | page w s w' res Hle Hget Hturn
                 | page w s w' cs res w'' Hle Hget Hturn Hrest IH];
    intros w2 cs2 res2 w2' H2; inversion H2; subst; try lia;
    try (split; reflexivity);
    match goal with
    | Ha : getSequences ?p ?a = (?s1, _), Hb : getSequences ?p ?b = (?s2, _)
      |- _ =>
        assert (s1 = s2) as Hs
          by (pose proof (Hdet p a b) as Hd; rewrite Ha, Hb in Hd; exact Hd);
        subst
    end; try congruence.
  - split; congruence.
  - match goal with Hr : Paginates _ _ (_ + 1) _ _ _ _ |- _ =>
      destruct (IH _ _ _ _ Hr) as [-> ->] end.
    split; reflexivity.
Qed.

End LoopFacts.

(** ** The three ways through [resolveSequenceId] *)

Section ResolverFacts.

Context {World Reason : Type}.
Implicit Types (input : ResolveSequenceIdInput World Reason) (w : World).

Lemma turn_NextPage (target : option string) (s : Settled Reason Page) :
  turn target s = NextPage <->
  exists sequences,
    s = Fulfilled (Some sequences) /\ sequences <> [] /\ noMatch target sequences.
Proof.
  destruct s as [[sequences|]|e]; cbn [turn].
  - destruct sequences as [|x l]; cbn [List.length Nat.eqb].
    + split; [discriminate|]. intros (? & [= <-] & Hne & _). now destruct Hne.
    + destruct (find (matchesName target) (x :: l)) as [found|] eqn:E.
      * split; [discriminate|]. intros (? & [= <-] & _ & Hno).
        apply find_none_noMatch in Hno. congruence.
      * split; [|reflexivity]. intros _. exists (x :: l).
        repeat split; [discriminate | now apply find_none_noMatch].
  - split; [discriminate | intros (? & [=] & _)].
  - split; [discriminate | intros (? & [=] & _)].
Qed.

Lemma turn_match (target : option string) (sequences : list BentoSequence.t)
    (candidate : BentoSequence.t) :
  In candidate sequences ->
  normalizeName (BentoSequence.attributes_name candidate) = target ->
  exists found,
    find (matchesName target) sequences = Some found
    /\ turn (Reason := Reason) target (Fulfilled (Some sequences))
       = Leave (Fulfilled (Some (BentoSequence.id found))).
Proof.
  intros Hin Hname. cbn [turn].
  destruct sequences as [|x l]; [destruct Hin|]. cbn [List.length Nat.eqb].
  destruct (find (matchesName target) (x :: l)) as [found|] eqn:E.
  - exists found. split; reflexivity.
  - apply find_none_noMatch in E. now apply E in Hin.
Qed.

Lemma resolveSequenceId_fast input (s : string) :
  sequenceId input = Some s -> Js.trim s <> "" ->
  resolveSequenceId input = ret (Some (Js.trim s)).
Proof.
  intros Hid Hne. unfold resolveSequenceId. rewrite Hid. cbn [option_map].
  replace (Js.toBoolean (Some (Js.trim s))) with true; [reflexivity|].
  symmetry. apply toBoolean_true. eauto.
Qed.

Lemma resolveSequenceId_by_name input :
  Js.toBoolean (option_map Js.trim (sequenceId input)) = false ->
  resolveSequenceId input =
  if negb (Js.toBoolean (normalizeName (sequenceName input))) then ret None
  else resolveSequenceId_loop (getSequences input)
         (normalizeName (sequenceName input)) 1.
Proof. intros H. unfold resolveSequenceId. rewrite H. reflexivity. Qed.

(** A run makes no call at all, or it is a run of the loop from page 1 for the
    normalized name. *)
Lemma resolveSequenceId_paginates input w :
  calls (resolveSequenceId input w) = []
  \/ (Js.toBoolean (option_map Js.trim (sequenceId input)) = false
      /\ Js.toBoolean (normalizeName (sequenceName input)) = true
      /\ Paginates (getSequences input) (normalizeName (sequenceName input))
           1 w
           (calls (resolveSequenceId input w))
           (outcome (resolveSequenceId input w))
           (world (resolveSequenceId input w))).
Proof.
  unfold resolveSequenceId.
  destruct (Js.toBoolean (option_map Js.trim (sequenceId input)));
    [left; reflexivity|].
  destruct (Js.toBoolean (normalizeName (sequenceName input)));
    [|left; reflexivity].
  right. repeat split. apply resolveSequenceId_loop_paginates.
Qed.

End ResolverFacts.

(** ** The resolver *)

(** C1, fast path: when [sequenceId] is non-empty after trimming,
    [resolveSequenceId] fulfils with the trimmed [sequenceId], makes no call
    to [getSequences] and leaves the world as it was, whatever
    [sequenceName] and [getSequences] are. *)
Theorem fast_path {World Reason : Type}
    (input : ResolveSequenceIdInput World Reason) (w : World) (s : string) :
  sequenceId input = Some s ->
  Js.trim s <> "" ->
  resolveSequenceId input w
  = Build_Run (Fulfilled (Some (Js.trim s))) w [].
Proof.
  intros Hid Hne. rewrite (resolveSequenceId_fast input s Hid Hne).
  reflexivity.
Qed.

Lemma fast_path_witness :
  resolveSequenceId
    {| sequenceId := Some "  sequence_abc123  ";
       sequenceName := Some "welcome flow";
       getSequences :=
         Fixtures.buildGetSequencesFromPages
           Fixtures.createNearMatchThenExactPages |} []
  = Build_Run (Fulfilled (Some "sequence_abc123")) [] [].
Proof.
  apply (fast_path
           {| sequenceId := Some "  sequence_abc123  ";
              sequenceName := Some "welcome flow";
              getSequences :=
                Fixtures.buildGetSequencesFromPages
                  Fixtures.createNearMatchThenExactPages |}
           [] "  sequence_abc123  ").
  - reflexivity.
  - vm_compute. discriminate.
Defined.

(** C2, empty input: when [sequenceId] is absent or trims to the empty
    string, and [sequenceName] is absent, empty or white space only,
    [resolveSequenceId] fulfils with [null] and makes no call to
    [getSequences]. *)
Theorem empty_input_short_circuit {World Reason : Type}
    (input : ResolveSequenceIdInput World Reason) (w : World) :
  (sequenceId input = None
   \/ exists s, sequenceId input = Some s /\ Js.trim s = "") ->
  (sequenceName input = None
   \/ exists n, sequenceName input = Some n /\ Js.isBlank n = true) ->
  resolveSequenceId input w = Build_Run (Fulfilled None) w [].
Proof.
  intros Hid Hname.
  rewrite resolveSequenceId_by_name.
  - replace (normalizeName (sequenceName input)) with (@None string);
      [reflexivity|].
    destruct Hname as [->|(n & -> & Hn)];
      [reflexivity | symmetry; now apply normalizeName_blank].
  - destruct Hid as [->|(s & -> & Hs)]; [reflexivity|].
    cbn [option_map]. rewrite Hs. reflexivity.
Qed.

Lemma empty_input_short_circuit_witness :
  resolveSequenceId
    {| sequenceId := Some "   ";
       sequenceName := Some (String "009" " ");
       getSequences := Fixtures.neverExhausted |} []
  = Build_Run (Fulfilled None) [] [].
Proof.
  apply (empty_input_short_circuit
           {| sequenceId := Some "   ";
              sequenceName := Some (String "009" " ");
              getSequences := Fixtures.neverExhausted |} []).
  - right. exists "   ". split; reflexivity.
  - right. exists (String "009" " "). split; reflexivity.
Defined.

(** C10, a [sequenceId] of white space only counts as absent: the run is the
    run without [sequenceId], result, calls and world alike, and it is the
    search by name (or [null] at once when the name normalizes to [null]),
    not the return of the id. *)
Theorem blank_id_is_absent {World Reason : Type} (ws : string)
    (name : option string) (fetch : GetSequences World Reason) (w : World) :
  Js.isBlank ws = true ->
  resolveSequenceId
    {| sequenceId := Some ws; sequenceName := name; getSequences := fetch |} w
  = resolveSequenceId
      {| sequenceId := None; sequenceName := name; getSequences := fetch |} w
  /\ resolveSequenceId
       {| sequenceId := Some ws; sequenceName := name; getSequences := fetch |} w
     = if negb (Js.toBoolean (normalizeName name)) then ret None w
       else resolveSequenceId_loop fetch (normalizeName name) 1 w.
Proof.
  intros Hws. apply trim_blank in Hws.
  rewrite !resolveSequenceId_by_name;
    cbn [sequenceId sequenceName getSequences option_map];
    try rewrite Hws; try reflexivity.
  split; destruct (negb _); reflexivity.
Qed.

Lemma blank_id_is_absent_witness :
  requested
    (resolveSequenceId
       {| sequenceId := Some "  ";
          sequenceName := Some "welcome flow";
          getSequences :=
            Fixtures.buildGetSequencesFromPages
              Fixtures.createNearMatchThenExactPages |} [])
  = requested
      (resolveSequenceId
         {| sequenceId := None;
            sequenceName := Some "welcome flow";
            getSequences :=
              Fixtures.buildGetSequencesFromPages
                Fixtures.createNearMatchThenExactPages |} []).
Proof.
  rewrite (proj1 (blank_id_is_absent "  " (Some "welcome flow")
                    (Fixtures.buildGetSequencesFromPages
                       Fixtures.createNearMatchThenExactPages)
                    [] eq_refl)).
  reflexivity.
Defined.

(** C9, determinism: with a fetcher that answers by the page number alone,
    two runs on the same [sequenceId] and [sequenceName] have the same
    outcome and the same calls, from any two worlds; so has a second run
    started in the world that the first one left. *)
Theorem determinism {World Reason : Type}
    (input : ResolveSequenceIdInput World Reason) :
  deterministic (getSequences input) ->
  (forall w1 w2,
     outcome (resolveSequenceId input w1) = outcome (resolveSequenceId input w2)
     /\ calls (resolveSequenceId input w1) = calls (resolveSequenceId input w2))
  /\ (forall w,
        outcome (resolveSequenceId input (world (resolveSequenceId input w)))
        = outcome (resolveSequenceId input w)
        /\ calls (resolveSequenceId input (world (resolveSequenceId input w)))
           = calls (resolveSequenceId input w)).
Proof.
  intros Hdet.
  assert (forall w1 w2,
     outcome (resolveSequenceId input w1) = outcome (resolveSequenceId input w2)
     /\ calls (resolveSequenceId input w1) = calls (resolveSequenceId input w2))
    as Hany.
  { intros w1 w2. unfold resolveSequenceId.
    destruct (Js.toBoolean (option_map Js.trim (sequenceId input)));
      [split; reflexivity|].
    destruct (negb (Js.toBoolean (normalizeName (sequenceName input))));
      [split; reflexivity|].
    pose proof (resolveSequenceId_loop_paginates (getSequences input)
                  (normalizeName (sequenceName input)) 1 w1) as H1.
    pose proof (resolveSequenceId_loop_paginates (getSequences input)
                  (normalizeName (sequenceName input)) 1 w2) as H2.
    destruct (Paginates_deterministic _ _ _ _ _ _ _ H1 Hdet _ _ _ _ H2)
      as [Hc Ho].
    split; assumption. }
  split; [exact Hany|]. intros w. apply Hany.
Qed.

Lemma determinism_witness :
  outcome
    (resolveSequenceId
       {| sequenceId := None;
          sequenceName := Some "welcome flow";
          getSequences :=
            Fixtures.buildGetSequencesFromPages
              Fixtures.createNearMatchThenExactPages |} [])
  = outcome
      (resolveSequenceId
         {| sequenceId := None;
            sequenceName := Some "welcome flow";
            getSequences :=
              Fixtures.buildGetSequencesFromPages
                Fixtures.createNearMatchThenExactPages |} [7; 7]).
Proof.
  refine (proj1 (proj1 (determinism
           {| sequenceId := None;
              sequenceName := Some "welcome flow";
              getSequences :=
                Fixtures.buildGetSequencesFromPages
                  Fixtures.createNearMatchThenExactPages |} _) [] [7; 7])).
  intros p w1 w2. reflexivity.
Defined.

(** ** Leaving the loop *)

Section Leaving.

Context {World Reason : Type}.
Implicit Types (input : ResolveSequenceIdInput World Reason) (w : World).

(** The pages asked for by any run: 1, 2, ..., up to the number of calls,
    which the ceiling bounds. *)
Lemma resolveSequenceId_requested input w :
  requested (resolveSequenceId input w)
  = seq 1 (List.length (calls (resolveSequenceId input w)))
  /\ List.length (calls (resolveSequenceId input w)) <= MAX_SEQUENCE_PAGES.
Proof.
  unfold requested.
  destruct (resolveSequenceId_paginates input w) as [Hnil|(_ & _ & Hrun)].
  - rewrite Hnil. split; [reflexivity | apply Nat.le_0_l].
  - apply Paginates_requested in Hrun as [Hreq Hlen]. split; [exact Hreq|].
    destruct (calls (resolveSequenceId input w)) as [|c cs];
      [apply Nat.le_0_l|].
    assert (c :: cs <> []) as Hne by discriminate.
    specialize (Hlen Hne). lia.
Qed.

(** A call on which the turn leaves ends the run: its result is the outcome,
    it is the last call, every call before it went on to the next page, and
    the pages asked for are 1 up to the page of that call. *)
Lemma resolveSequenceId_leaves input w (c : Call Reason)
    (res : Settled Reason (option string)) :
  In c (calls (resolveSequenceId input w)) ->
  turn (normalizeName (sequenceName input)) (settled c) = Leave res ->
  outcome (resolveSequenceId input w) = res
  /\ (exists earlier,
        calls (resolveSequenceId input w) = (earlier ++ [c])%list
        /\ Forall (fun c' =>
                     turn (normalizeName (sequenceName input)) (settled c')
                     = NextPage) earlier)
  /\ requested (resolveSequenceId input w) = seq 1 (page c).
Proof.
  intros Hin Hturn.
  destruct (resolveSequenceId_requested input w) as [Hreq _].
  destruct (resolveSequenceId_paginates input w) as [Hnil|(_ & _ & Hrun)].
  - rewrite Hnil in Hin. destruct Hin.
  - destruct (Paginates_leaves _ _ _ _ _ _ _ Hrun c res Hin Hturn)
      as (Hres & earlier & Hcalls & Hall).
    split; [exact Hres|]. split; [exists earlier; split; assumption|].
    rewrite Hreq. f_equal.
    unfold requested, pagesOf in Hreq. rewrite Hcalls in Hreq.
    rewrite map_app, length_app in Hreq. cbn [map List.length] in Hreq.
    rewrite seq_app in Hreq. cbn [seq] in Hreq.
    apply app_inj_tail in Hreq as [_ Hpage].
    rewrite Hcalls, length_app. cbn [List.length]. lia.
Qed.

End Leaving.

(** ** Facts on the fixtures *)

Lemma trimEnd_head (c : ascii) (rest : string) :
  Js.isWhiteSpace c = false ->
  exists kept, Js.trimEnd (String c rest) = String c kept.
Proof.
  intros Hc. cbn [Js.trimEnd]. rewrite Hc.
  destruct (Js.trimEnd rest); eauto.
Qed.

(** A name that starts with a visible character normalizes to a string that
    starts with the lower case of that character. *)
Lemma normalizeName_head (c : ascii) (rest : string) :
  Js.isWhiteSpace c = false ->
  exists kept,
    normalizeName (Some (String c rest))
    = Some (String (Js.toLowerCaseUnit c) kept).
Proof.
  intros Hc. rewrite normalizeName_Some. unfold Js.trim.
  cbn [Js.trimStart]. rewrite Hc.
  destruct (trimEnd_head c rest Hc) as [kept ->].
  cbn [String.eqb Js.toLowerCase]. eauto.
Qed.

Lemma neverExhausted_never_matches (page : nat) (requestedPages : list nat) :
  exists sequences,
    fst (Fixtures.neverExhausted page requestedPages)
    = Fulfilled (Some sequences)
    /\ sequences <> []
    /\ noMatch (Some "does not exist") sequences.
Proof.
  eexists. split; [reflexivity|]. split; [discriminate|].
  intros sequence [<-|[]].
  cbn [Fixtures.named BentoSequence.attributes_name BentoSequence.attributes
       name append].
  match goal with
  | |- normalizeName (Some (String ?c ?rest)) <> _ =>
      destruct (normalizeName_head c rest eq_refl) as [kept ->]
  end.
  intros [=].
Qed.

(** ** Matching *)

(** C4, first match: when a page that the run fetched holds a sequence whose
    normalized name is the normalized wanted name, the run fulfils with the id
    of the first such sequence of that page, in the order of the page; that
    page is the last one fetched, the pages asked for are 1 up to it, and no
    page fetched before it held a match.  Sequences with the same name later
    on the page, or on pages behind it, play no part. *)
Theorem first_match_selection {World Reason : Type}
    (input : ResolveSequenceIdInput World Reason) (w : World)
    (c : Call Reason) (sequences : list BentoSequence.t)
    (candidate : BentoSequence.t) :
  In c (calls (resolveSequenceId input w)) ->
  settled c = Fulfilled (Some sequences) ->
  In candidate sequences ->
  normalizeName (BentoSequence.attributes_name candidate)
  = normalizeName (sequenceName input) ->
  exists before found after,
    sequences = (before ++ found :: after)%list
    /\ normalizeName (BentoSequence.attributes_name found)
       = normalizeName (sequenceName input)
    /\ noMatch (normalizeName (sequenceName input)) before
    /\ outcome (resolveSequenceId input w)
       = Fulfilled (Some (BentoSequence.id found))
    /\ requested (resolveSequenceId input w) = seq 1 (page c)
    /\ exists earlier,
         calls (resolveSequenceId input w) = (earlier ++ [c])%list
         /\ Forall (fun c' =>
                      exists sequences',
                        settled c' = Fulfilled (Some sequences')
                        /\ sequences' <> []
                        /\ noMatch (normalizeName (sequenceName input))
                                   sequences') earlier.
Proof.
  intros Hin Hsettled Hcand Hname.
  destruct (turn_match (Reason := Reason) _ _ _ Hcand Hname)
    as (found & Hfind & Hturn).
  rewrite <- Hsettled in Hturn.
  destruct (resolveSequenceId_leaves input w c _ Hin Hturn)
    as (Hout & (earlier & Hcalls & Hall) & Hreq).
  apply find_first in Hfind as (before & after & Hsplit & Hfound & Hbefore).
  exists before, found, after.
  split; [exact Hsplit|].
  split; [now apply matchesName_eq|].
  split; [intros x Hx; apply matchesName_false; auto|].
  split; [exact Hout|]. split; [exact Hreq|].
  exists earlier. split; [exact Hcalls|].
  eapply Forall_impl; [|exact Hall].
  intros c' Hc'. now apply turn_NextPage.
Qed.

Lemma first_match_selection_witness :
  exists before found after,
    [ Fixtures.named "sequence_filler" "Welcome Flow Extended";
      Fixtures.named "sequence_dup_a" "Welcome Flow";
      Fixtures.named "sequence_dup_b" " welcome flow " ]
    = (before ++ found :: after)%list
    /\ outcome
         (resolveSequenceId
            {| sequenceId := None;
               sequenceName := Some "Welcome flow ";
               getSequences :=
                 Fixtures.buildGetSequencesFromPages duplicatedNamePages |} [])
       = Fulfilled (Some (BentoSequence.id found)).
Proof.
  destruct (first_match_selection
              {| sequenceId := None;
                 sequenceName := Some "Welcome flow ";
                 getSequences :=
                   Fixtures.buildGetSequencesFromPages duplicatedNamePages |}
              []
              (Build_Call 2
                 (Fulfilled
                    (Some
                       [ Fixtures.named "sequence_filler" "Welcome Flow Extended";
                         Fixtures.named "sequence_dup_a" "Welcome Flow";
                         Fixtures.named "sequence_dup_b" " welcome flow " ])))
              [ Fixtures.named "sequence_filler" "Welcome Flow Extended";
                Fixtures.named "sequence_dup_a" "Welcome Flow";
                Fixtures.named "sequence_dup_b" " welcome flow " ]
              (Fixtures.named "sequence_dup_b" " welcome flow "))
    as (before & found & after & Hsplit & _ & _ & Hout & _).
  - vm_compute. right. left. reflexivity.
  - reflexivity.
  - right. right. left. reflexivity.
  - vm_compute. reflexivity.
  - exists before, found, after. split; assumption.
Defined.

Example duplicatedName_first :
  outcome
    (resolveSequenceId
       {| sequenceId := None;
          sequenceName := Some "Welcome flow ";
          getSequences :=
            Fixtures.buildGetSequencesFromPages duplicatedNamePages |} [])
  = Fulfilled (Some "sequence_dup_a")
  /\ world
       (resolveSequenceId
          {| sequenceId := None;
             sequenceName := Some "Welcome flow ";
             getSequences :=
               Fixtures.buildGetSequencesFromPages duplicatedNamePages |} [])
     = [1; 2].
Proof. split; vm_compute; reflexivity. Qed.

(** ** Ending without a match *)

(** C5, exhaustion: a fetched page that is [null]/[undefined] or empty ends
    the run at once with [null]: it is the last call, and the pages asked for
    are 1 up to it.  On the three pages of [createNoMatchPages], which the
    fetcher of the tests follows with empty pages, the run asks for pages 1,
    2, 3 and 4 and fulfils with [null]. *)
Theorem exhaustion :
  (forall (World Reason : Type) (input : ResolveSequenceIdInput World Reason)
          (w : World) (c : Call Reason),
      In c (calls (resolveSequenceId input w)) ->
      settled c = Fulfilled None \/ settled c = Fulfilled (Some []) ->
      outcome (resolveSequenceId input w) = Fulfilled None
      /\ (exists earlier,
            calls (resolveSequenceId input w) = (earlier ++ [c])%list)
      /\ requested (resolveSequenceId input w) = seq 1 (page c))
  /\ outcome
       (resolveSequenceId
          {| sequenceId := None;
             sequenceName := Some "does not exist";
             getSequences :=
               Fixtures.buildGetSequencesFromPages Fixtures.createNoMatchPages |}
          [])
     = Fulfilled None
  /\ requested
       (resolveSequenceId
          {| sequenceId := None;
             sequenceName := Some "does not exist";
             getSequences :=
               Fixtures.buildGetSequencesFromPages Fixtures.createNoMatchPages |}
          [])
     = [1; 2; 3; 4]
  /\ world
       (resolveSequenceId
          {| sequenceId := None;
             sequenceName := Some "does not exist";
             getSequences :=
               Fixtures.buildGetSequencesFromPages Fixtures.createNoMatchPages |}
          [])
     = [1; 2; 3; 4]
  /\ map settled
       (skipn 3
          (calls
             (resolveSequenceId
                {| sequenceId := None;
                   sequenceName := Some "does not exist";
                   getSequences :=
                     Fixtures.buildGetSequencesFromPages
                       Fixtures.createNoMatchPages |}
                [])))
     = [Fulfilled (Some [])].
Proof.
  split.
  - intros World Reason input w c Hin Hsettled.
    assert (turn (normalizeName (sequenceName input)) (settled c)
            = Leave (Fulfilled None)) as Hturn
      by (destruct Hsettled as [->| ->]; reflexivity).
    destruct (resolveSequenceId_leaves input w c _ Hin Hturn)
      as (Hout & (earlier & Hcalls & _) & Hreq).
    repeat split; eauto.
  - repeat split; vm_compute; reflexivity.
Qed.

Lemma exhaustion_witness :
  outcome
    (resolveSequenceId
       {| sequenceId := None;
          sequenceName := Some "newsletter";
          getSequences :=
            Fixtures.buildGetSequencesFromPages Fixtures.empty |} [])
  = Fulfilled None.
Proof.
  refine (proj1 (proj1 exhaustion (list nat) string
           {| sequenceId := None;
              sequenceName := Some "newsletter";
              getSequences :=
                Fixtures.buildGetSequencesFromPages Fixtures.empty |}
           [] (Build_Call 1 (Fulfilled (Some []))) _ _)).
  - vm_compute. left. reflexivity.
  - right. reflexivity.
Defined.

(** C6, ceiling: no run makes more than 100 calls and none asks for page 101.
    When the search by name is entered (no usable [sequenceId], a name that
    does not normalize to [null]) and the fetcher answers every page, in every
    world, with a non-empty page without a match, the run asks for the pages 1
    to 100 in order and fulfils with [null]. *)
Theorem ceiling_bound :
  MAX_SEQUENCE_PAGES = 100
  /\ (forall (World Reason : Type) (input : ResolveSequenceIdInput World Reason)
             (w : World),
         List.length (calls (resolveSequenceId input w)) <= 100
         /\ ~ In 101 (requested (resolveSequenceId input w)))
  /\ (forall (World Reason : Type) (input : ResolveSequenceIdInput World Reason)
             (w : World),
         Js.toBoolean (option_map Js.trim (sequenceId input)) = false ->
         Js.toBoolean (normalizeName (sequenceName input)) = true ->
         (forall page v,
             exists sequences,
               fst (getSequences input page v) = Fulfilled (Some sequences)
               /\ sequences <> []
               /\ noMatch (normalizeName (sequenceName input)) sequences) ->
         requested (resolveSequenceId input w) = seq 1 100
         /\ outcome (resolveSequenceId input w) = Fulfilled None).
Proof.
  split; [reflexivity|]. split.
  - intros World Reason input w.
    destruct (resolveSequenceId_requested input w) as [Hreq Hlen].
    change MAX_SEQUENCE_PAGES with 100 in Hlen. split; [exact Hlen|].
    rewrite Hreq, in_seq. lia.
  - intros World Reason input w Hid Hname Hpages.
    destruct (resolveSequenceId_paginates input w) as [Hnil|(_ & _ & Hrun)].
    + exfalso. revert Hnil. rewrite resolveSequenceId_by_name by exact Hid.
      rewrite Hname. cbn [negb]. rewrite resolveSequenceId_loop_run.
      cbn [Nat.leb MAX_SEQUENCE_PAGES].
      destruct (getSequences input 1 w) as [s w'].
      destruct (turn _ s); discriminate.
    + apply Paginates_never_leaves in Hrun as [Hres Hreq].
      * split; [exact Hreq | exact Hres].
      * intros p v. apply turn_NextPage. apply Hpages.
Qed.

Lemma ceiling_bound_witness :
  requested
    (resolveSequenceId
       {| sequenceId := None;
          sequenceName := Some "does not exist";
          getSequences := Fixtures.neverExhausted |} [])
  = seq 1 100
  /\ outcome
       (resolveSequenceId
          {| sequenceId := None;
             sequenceName := Some "does not exist";
             getSequences := Fixtures.neverExhausted |} [])
     = Fulfilled None.
Proof.
  apply (proj2 (proj2 ceiling_bound) (list nat) string
           {| sequenceId := None;
              sequenceName := Some "does not exist";
              getSequences := Fixtures.neverExhausted |} []).
  - reflexivity.
  - reflexivity.
  - exact neverExhausted_never_matches.
Defined.

(** ** Order of the calls *)

(** C7, pagination in order: the pages asked for by a run are 1, 2, ..., k for
    some k from 0 to 100, each once; every call starts in the world that the
    call before it left.  On the fixture with a match on page 11 only, the
    run asks for pages 1 to 11 and fulfils with the id of the match. *)
Theorem in_order_pagination :
  (forall (World Reason : Type) (input : ResolveSequenceIdInput World Reason)
          (w : World),
      (exists k,
          k <= 100 /\ requested (resolveSequenceId input w) = seq 1 k)
      /\ NoDup (requested (resolveSequenceId input w))
      /\ (calls (resolveSequenceId input w) = []
          \/ Paginates (getSequences input)
               (normalizeName (sequenceName input)) 1 w
               (calls (resolveSequenceId input w))
               (outcome (resolveSequenceId input w))
               (world (resolveSequenceId input w))))
  /\ exists pages,
       Fixtures.createPagesWithMatchOnPage 11 "  Welcome Campaign  "
       = Some pages
       /\ requested
            (resolveSequenceId
               {| sequenceId := None;
                  sequenceName := Some "welcome campaign";
                  getSequences := Fixtures.buildGetSequencesFromPages pages |}
               [])
          = [1; 2; 3; 4; 5; 6; 7; 8; 9; 10; 11]
       /\ world
            (resolveSequenceId
               {| sequenceId := None;
                  sequenceName := Some "welcome campaign";
                  getSequences := Fixtures.buildGetSequencesFromPages pages |}
               [])
          = [1; 2; 3; 4; 5; 6; 7; 8; 9; 10; 11]
       /\ outcome
            (resolveSequenceId
               {| sequenceId := None;
                  sequenceName := Some "welcome campaign";
                  getSequences := Fixtures.buildGetSequencesFromPages pages |}
               [])
          = Fulfilled (Some "sequence_match_page_11").
Proof.
  split.
  - intros World Reason input w.
    destruct (resolveSequenceId_requested input w) as [Hreq Hlen].
    split; [eexists; split; [exact Hlen | exact Hreq]|].
    split; [rewrite Hreq; apply seq_NoDup|].
    destruct (resolveSequenceId_paginates input w) as [Hnil|(_ & _ & Hrun)];
      [left | right]; assumption.
  - eexists. split; [reflexivity|].
    repeat split; vm_compute; reflexivity.
Qed.

(** C8, a rejected fetch: when a call of the run was rejected, the run is
    rejected with the same reason and has no value; the rejected call is the
    last call, so nothing is fetched again or further; every call before it
    was fulfilled; and the pages asked for are 1 up to the rejected page, each
    once. *)
Theorem failure_propagation {World Reason : Type}
    (input : ResolveSequenceIdInput World Reason) (w : World)
    (c : Call Reason) (e : Reason) :
  In c (calls (resolveSequenceId input w)) ->
  settled c = Rejected e ->
  outcome (resolveSequenceId input w) = Rejected e
  /\ (forall v, outcome (resolveSequenceId input w) <> Fulfilled v)
  /\ (exists earlier,
        calls (resolveSequenceId input w) = (earlier ++ [c])%list
        /\ Forall (fun c' => exists p, settled c' = Fulfilled p) earlier)
  /\ requested (resolveSequenceId input w) = seq 1 (page c)
  /\ NoDup (requested (resolveSequenceId input w)).
Proof.
  intros Hin Hsettled.
  assert (turn (normalizeName (sequenceName input)) (settled c)
          = Leave (Rejected e)) as Hturn by (rewrite Hsettled; reflexivity).
  destruct (resolveSequenceId_leaves input w c _ Hin Hturn)
    as (Hout & (earlier & Hcalls & Hall) & Hreq).
  split; [exact Hout|].
  split; [intros v; rewrite Hout; discriminate|].
  split.
  - exists earlier. split; [exact Hcalls|].
    eapply Forall_impl; [|exact Hall].
    intros c' Hc'. apply turn_NextPage in Hc' as (sequences & -> & _). eauto.
  - split; [exact Hreq | rewrite Hreq; apply seq_NoDup].
Qed.

Lemma failure_propagation_witness :
  outcome
    (resolveSequenceId
       {| sequenceId := None;
          sequenceName := Some "does not exist";
          getSequences := rejectingOn 3 |} [])
  = Rejected "503 Service Unavailable"
  /\ requested
       (resolveSequenceId
          {| sequenceId := None;
             sequenceName := Some "does not exist";
             getSequences := rejectingOn 3 |} [])
     = [1; 2; 3].
Proof.
  destruct (failure_propagation
              {| sequenceId := None;
                 sequenceName := Some "does not exist";
                 getSequences := rejectingOn 3 |} []
              (Build_Call 3 (Rejected "503 Service Unavailable"))
              "503 Service Unavailable")
    as (Hout & _ & _ & Hreq & _).
  - vm_compute. right. right. left. reflexivity.
  - reflexivity.
  - split; [exact Hout | exact Hreq].
Defined.

(** * Further properties of the resolver *)

(** ** More on [trim] *)

Lemma trimEnd_blank (s : string) : Js.isBlank s = true -> Js.trimEnd s = "".
Proof.
  induction s as [|c rest IH]; cbn [Js.isBlank Js.trimEnd]; [reflexivity|].
  intros H. apply andb_true_iff in H as [Hc Hrest].
  now rewrite (IH Hrest), Hc.
Qed.

Lemma trimEnd_idem (s : string) : Js.trimEnd (Js.trimEnd s) = Js.trimEnd s.
Proof.
  induction s as [|c rest IH]; cbn [Js.trimEnd]; [reflexivity|].
  destruct (Js.trimEnd rest) as [|a kept] eqn:E.
  - destruct (Js.isWhiteSpace c) eqn:Hc; [reflexivity|].
    cbn [Js.trimEnd]. now rewrite Hc.
  - cbn [Js.trimEnd] in *. now rewrite IH.
Qed.

(** [trimEnd] keeps the first character of what it leaves. *)
Lemma trimEnd_visible_head (c : ascii) (rest : string) :
  Js.isWhiteSpace c = false ->
  Js.trimStart (Js.trimEnd (String c rest)) = Js.trimEnd (String c rest).
Proof.
  intros Hc. destruct (trimEnd_head c rest Hc) as [kept ->].
  cbn [Js.trimStart]. now rewrite Hc.
Qed.

Lemma trimStart_cases (s : string) :
  Js.trimStart s = ""
  \/ exists c rest, Js.trimStart s = String c rest /\ Js.isWhiteSpace c = false.
Proof.
  induction s as [|c rest IH]; cbn [Js.trimStart]; [now left|].
  destruct (Js.isWhiteSpace c) eqn:Hc; [exact IH | right; eauto].
Qed.

Lemma trim_idem (s : string) : Js.trim (Js.trim s) = Js.trim s.
Proof.
  unfold Js.trim.
  destruct (trimStart_cases s) as [->|(c & rest & -> & Hc)]; [reflexivity|].
  rewrite (trimEnd_visible_head c rest Hc). apply trimEnd_idem.
Qed.

Lemma isBlank_app (a b : string) :
  Js.isBlank (a ++ b) = Js.isBlank a && Js.isBlank b.
Proof.
  induction a as [|c rest IH]; cbn [append Js.isBlank]; [reflexivity|].
  now rewrite IH, andb_assoc.
Qed.

Lemma trimStart_app (s r : string) :
  Js.trimStart (s ++ r)
  = if Js.isBlank s then Js.trimStart r else Js.trimStart s ++ r.
Proof.
  induction s as [|c rest IH]; cbn [append Js.trimStart Js.isBlank];
    [reflexivity|].
  destruct (Js.isWhiteSpace c); cbn [andb]; [exact IH | reflexivity].
Qed.

Lemma trimEnd_app_blank (s r : string) :
  Js.isBlank r = true -> Js.trimEnd (s ++ r) = Js.trimEnd s.
Proof.
  intros Hr. induction s as [|c rest IH]; cbn [append Js.trimEnd].
  - now apply trimEnd_blank.
  - now rewrite IH.
Qed.

(** White space around a string does not change what [trim] gives. *)
Lemma trim_padding (l s r : string) :
  Js.isBlank l = true -> Js.isBlank r = true ->
  Js.trim (l ++ s ++ r) = Js.trim s.
Proof.
  intros Hl Hr. unfold Js.trim.
  rewrite trimStart_app, Hl, trimStart_app.
  destruct (Js.isBlank s) eqn:Hs.
  - rewrite (trimStart_blank r Hr), (trimStart_blank s Hs). reflexivity.
  - now apply trimEnd_app_blank.
Qed.

(** ** More on [normalizeName] *)

(** [normalizeName] gives [null] exactly for a missing name and for a name of
    white space only (the empty name included). *)
Theorem normalizeName_null_iff (value : option string) :
  normalizeName value = None <->
  value = None \/ exists s, value = Some s /\ Js.isBlank s = true.
Proof.
  destruct value as [s|].
  - rewrite normalizeName_Some. split.
    + destruct (Js.trim s =? "")%string eqn:E; [|discriminate].
      intros _. right. exists s. split; [reflexivity|].
      apply trim_empty_iff. now apply String.eqb_eq.
    + intros [[=]|(s' & [= <-] & Hs)]. now rewrite (trim_blank s Hs).
  - split; [now left | reflexivity].
Qed.

(** White space around a name does not change what [normalizeName] gives. *)
Theorem normalizeName_padding (l s r : string) :
  Js.isBlank l = true -> Js.isBlank r = true ->
  normalizeName (Some (l ++ s ++ r)) = normalizeName (Some s).
Proof.
  intros Hl Hr.
  now rewrite (normalizeName_Some (l ++ s ++ r)), (trim_padding l s r Hl Hr),
    <- normalizeName_Some.
Qed.

Lemma normalizeName_padding_witness :
  normalizeName (Some ("  " ++ "Welcome Flow" ++ String "009" " "))
  = normalizeName (Some "Welcome Flow").
Proof.
  apply (normalizeName_padding "  " "Welcome Flow" (String "009" " "));
    reflexivity.
Defined.

(** ** How a run ends *)

Section Endings.

Context {World Reason : Type}.
Variable fetch : GetSequences World Reason.
Variable target : option string.

Lemma turn_Leave (s : Settled Reason Page)
    (res : Settled Reason (option string)) :
  turn target s = Leave res ->
  (exists e, s = Rejected e /\ res = Rejected e)
  \/ ((s = Fulfilled None \/ s = Fulfilled (Some [])) /\ res = Fulfilled None)
  \/ (exists sequences found,
         s = Fulfilled (Some sequences)
         /\ find (matchesName target) sequences = Some found
         /\ res = Fulfilled (Some (BentoSequence.id found))).
Proof.
  destruct s as [[sequences|]|e]; cbn [turn].
  - destruct sequences as [|x l]; cbn [List.length Nat.eqb].
    + intros [= <-]. right. left. auto.
    + destruct (find (matchesName target) (x :: l)) as [found|] eqn:E;
        [|discriminate].
      intros [= <-]. right. right. eauto.
  - intros [= <-]. right. left. auto.
  - intros [= <-]. left. eauto.
Qed.

(** A run of the loop ends in one of three ways: the test fails at once, the
    last turn leaves with the result, or the last turn goes on past the
    ceiling. *)
Lemma Paginates_ends start w cs res w' :
  Paginates fetch target start w cs res w' ->
  (cs = [] /\ res = Fulfilled None)
  \/ exists earlier c,
       cs = (earlier ++ [c])%list
       /\ Forall (fun c' => turn target (settled c') = NextPage) earlier
       /\ (turn target (settled c) = Leave res
           \/ (turn target (settled c) = NextPage
               /\ res = Fulfilled None
               /\ page c = MAX_SEQUENCE_PAGES)).
Proof.
  induction 1 as [p w Hgt | p w s w' res Hle Hget Hturn
                 | p w s w' cs res w'' Hle Hget Hturn Hrest IH].
  - left. split; reflexivity.
  - right. exists [], (Build_Call p s). cbn [settled app]. auto.
  - right. destruct IH as [[-> ->]|(earlier & c & -> & Hall & Hlast)].
    + exists [], (Build_Call p s). cbn [settled page app].
      repeat split; [constructor|]. right. repeat split; [assumption|].
      inversion Hrest; subst. lia.
    + exists (Build_Call p s :: earlier), c. repeat split; auto.
Qed.

(** The world a run leaves is the world after its calls, and every call was
    made in the world that the calls before it left. *)
Lemma Paginates_replay start w cs res w' :
  Paginates fetch target start w cs res w' ->
  w' = replay fetch w (pagesOf cs)
  /\ forall earlier c later,
       cs = (earlier ++ c :: later)%list ->
       settled c = fst (fetch (page c) (replay fetch w (pagesOf earlier))).
Proof.
  unfold replay, pagesOf.
  induction 1 as [p w Hgt | p w s w' res Hle Hget Hturn
                 | p w s w' cs res w'' Hle Hget Hturn Hrest [IHw IHc]].
  - split; [reflexivity|]. intros [|] ? ? [=].
  - cbn [map fold_left page]. rewrite Hget. split; [reflexivity|].
    intros [|x earlier] c later Heq; cbn [app] in Heq.
    + injection Heq as <- _. cbn [map fold_left page settled].
      now rewrite Hget.
    + injection Heq as _ Heq. destruct earlier; discriminate.
  - cbn [map fold_left page]. rewrite Hget. cbn [snd].
    split; [exact IHw|].
    intros [|x earlier] c later Heq; cbn [app] in Heq.
    + injection Heq as <- _. cbn [map fold_left page settled].
      now rewrite Hget.
    + injection Heq as <- Heq. cbn [map fold_left page]. rewrite Hget.
      cbn [snd]. now apply (IHc earlier c later).
Qed.

End Endings.

Section Outcomes.

Context {World Reason : Type}.
Implicit Types (input : ResolveSequenceIdInput World Reason) (w : World).

(** The three ways through [resolveSequenceId], with the run of each. *)
Lemma resolveSequenceId_cases input w :
  (exists s,
      sequenceId input = Some s /\ Js.trim s <> ""
      /\ resolveSequenceId input w
         = Build_Run (Fulfilled (Some (Js.trim s))) w [])
  \/ (Js.toBoolean (option_map Js.trim (sequenceId input)) = false
      /\ normalizeName (sequenceName input) = None
      /\ resolveSequenceId input w = Build_Run (Fulfilled None) w [])
  \/ (Js.toBoolean (option_map Js.trim (sequenceId input)) = false
      /\ normalizeName (sequenceName input) <> None
      /\ resolveSequenceId input w
         = resolveSequenceId_loop (getSequences input)
             (normalizeName (sequenceName input)) 1 w).
Proof.
  destruct (Js.toBoolean (option_map Js.trim (sequenceId input))) eqn:Hid.
  - left. apply toBoolean_true in Hid as (t & Ht & Hne).
    destruct (sequenceId input) as [s|] eqn:Hs; [|discriminate].
    injection Ht as <-. exists s. repeat split; [assumption|].
    rewrite (resolveSequenceId_fast input s Hs Hne). reflexivity.
  - right. rewrite (resolveSequenceId_by_name input Hid).
    destruct (Js.toBoolean (normalizeName (sequenceName input))) eqn:Hname.
    + right. repeat split. intros Hnone. rewrite Hnone in Hname. discriminate.
    + left. apply normalizeName_truthy in Hname. repeat split; assumption.
Qed.

(** An id that the resolver gives is the trimmed [sequenceId], or it is the
    id of a sequence on the last page fetched whose normalized name is the
    normalized [sequenceName]: the resolver invents no id. *)
Theorem found_id_is_sound input w (i : string) :
  outcome (resolveSequenceId input w) = Fulfilled (Some i) ->
  (exists s,
      sequenceId input = Some s /\ i = Js.trim s /\ i <> ""
      /\ calls (resolveSequenceId input w) = [])
  \/ (exists earlier c sequences found,
         calls (resolveSequenceId input w) = (earlier ++ [c])%list
         /\ settled c = Fulfilled (Some sequences)
         /\ In found sequences
         /\ normalizeName (BentoSequence.attributes_name found)
            = normalizeName (sequenceName input)
         /\ normalizeName (sequenceName input) <> None
         /\ BentoSequence.id found = i).
Proof.
  intros Hout.
  destruct (resolveSequenceId_cases input w)
    as [(s & Hs & Hne & Hrun)|[(_ & _ & Hrun)|(_ & Hname & Hrun)]].
  - left. exists s. rewrite Hrun in *. cbn [outcome calls] in *.
    injection Hout as <-. auto.
  - rewrite Hrun in Hout. discriminate.
  - right. rewrite Hrun in *.
    pose proof (resolveSequenceId_loop_paginates (getSequences input)
                  (normalizeName (sequenceName input)) 1 w) as Hp.
    apply Paginates_ends in Hp as [[_ Hres]|(earlier & c & Hcs & _ & Hlast)].
    + congruence.
    + destruct Hlast as [Hleave|(_ & Hres & _)]; [|congruence].
      rewrite Hout in Hleave.
      apply turn_Leave
        in Hleave as [(e & _ & [=])|[[_ [=]]|(sequences & found & Hs & Hf & Hi)]].
      injection Hi as ->.
      apply find_some in Hf as [Hin Hm]. apply matchesName_eq in Hm.
      exists earlier, c, sequences, found. auto 10.
Qed.

(** When the resolver gives [null], no page it fetched held a sequence with
    the wanted name; and it fetched nothing, or stopped at a page that was
    [null]/[undefined] or empty, or went through all of the pages 1 to
    100. *)
Theorem not_found_means input w :
  outcome (resolveSequenceId input w) = Fulfilled None ->
  (forall c sequences,
      In c (calls (resolveSequenceId input w)) ->
      settled c = Fulfilled (Some sequences) ->
      noMatch (normalizeName (sequenceName input)) sequences)
  /\ ((calls (resolveSequenceId input w) = []
       /\ normalizeName (sequenceName input) = None)
      \/ (exists earlier c,
             calls (resolveSequenceId input w) = (earlier ++ [c])%list
             /\ (settled c = Fulfilled None \/ settled c = Fulfilled (Some [])))
      \/ requested (resolveSequenceId input w) = seq 1 100).
Proof.
  intros Hout.
  destruct (resolveSequenceId_cases input w)
    as [(s & Hs & Hne & Hrun)|[(_ & Hnone & Hrun)|(_ & Hname & Hrun)]].
  - rewrite Hrun in Hout. discriminate.
  - rewrite Hrun. cbn [calls]. split; [intros c sequences []|]. left. auto.
  - destruct (resolveSequenceId_requested input w) as [Hreq _].
    unfold requested in *. rewrite Hrun in *.
    pose proof (resolveSequenceId_loop_paginates (getSequences input)
                  (normalizeName (sequenceName input)) 1 w) as Hp.
    apply Paginates_ends in Hp as [[Hnil _]|(earlier & c & Hcs & Hall & Hlast)].
    + exfalso. revert Hnil. rewrite resolveSequenceId_loop_run.
      cbn [Nat.leb MAX_SEQUENCE_PAGES].
      destruct (getSequences input 1 w) as [s w'].
      destruct (turn _ s); discriminate.
    + rewrite Hcs in *. rewrite Forall_forall in Hall.
      assert (Hpage : page c = List.length (earlier ++ [c])%list).
      { unfold pagesOf in Hreq.
        rewrite map_app, length_app, seq_app in Hreq.
        cbn [map List.length seq] in Hreq.
        apply app_inj_tail in Hreq as [_ Hpage]. rewrite length_app.
        cbn [List.length]. lia. }
      destruct Hlast as [Hleave|(Hnext & _ & Hmax)].
      * rewrite Hout in Hleave.
        apply turn_Leave
          in Hleave as [(e & _ & [=])|[[Hempty _]|(? & ? & _ & _ & [=])]].
        split; [|right; left; eauto].
        intros c' sequences Hin Hc'. apply in_app_or in Hin as [Hin|[<-|[]]].
        -- apply Hall in Hin. apply turn_NextPage in Hin as (l & Hl & _ & Hno).
           rewrite Hl in Hc'. injection Hc' as <-. exact Hno.
        -- destruct Hempty as [He|He]; rewrite He in Hc'; [discriminate|].
           injection Hc' as <-. intros x [].
      * split; [|right; right].
        -- intros c' sequences Hin Hc'.
           assert (turn (normalizeName (sequenceName input)) (settled c')
                   = NextPage) as Hn
             by (apply in_app_or in Hin as [Hin|[<-|[]]]; auto).
           apply turn_NextPage in Hn as (l & Hl & _ & Hno).
           rewrite Hl in Hc'. injection Hc' as <-. exact Hno.
        -- rewrite Hreq, <- Hpage, Hmax. reflexivity.
Qed.

(** A run is rejected only with the reason of a rejected call, its last
    one: the resolver raises no error of its own. *)
Theorem rejection_comes_from_fetcher input w (e : Reason) :
  outcome (resolveSequenceId input w) = Rejected e ->
  exists earlier c,
    calls (resolveSequenceId input w) = (earlier ++ [c])%list
    /\ settled c = Rejected e
    /\ sequenceName input <> None.
Proof.
  intros Hout.
  destruct (resolveSequenceId_cases input w)
    as [(s & Hs & Hne & Hrun)|[(_ & _ & Hrun)|(_ & Hname & Hrun)]];
    try (rewrite Hrun in Hout; discriminate).
  rewrite Hrun in *.
  pose proof (resolveSequenceId_loop_paginates (getSequences input)
                (normalizeName (sequenceName input)) 1 w) as Hp.
  apply Paginates_ends in Hp as [[_ Hres]|(earlier & c & Hcs & _ & Hlast)];
    [congruence|].
  destruct Hlast as [Hleave|(_ & Hres & _)]; [|congruence].
  rewrite Hout in Hleave.
  apply turn_Leave
    in Hleave as [(e' & Hs & [= <-])|[[_ [=]]|(? & ? & _ & _ & [=])]].
  exists earlier, c. repeat split; [assumption..|].
  intros Hnone. rewrite Hnone in Hname. now apply Hname.
Qed.

(** The resolver changes the world through its calls only: the world it
    leaves is the world after the pages it asked for, asked in that order,
    and each call of the log was made in the world left by the calls before
    it and is logged with the answer it got. *)
Lemma world_replays_calls input w :
  world (resolveSequenceId input w)
  = replay (getSequences input) w (requested (resolveSequenceId input w))
  /\ forall earlier c later,
       calls (resolveSequenceId input w) = (earlier ++ c :: later)%list ->
       settled c
       = fst (getSequences input (page c)
                (replay (getSequences input) w (pagesOf earlier))).
Proof.
  unfold requested.
  destruct (resolveSequenceId_cases input w)
    as [(s & Hs & Hne & Hrun)|[(_ & _ & Hrun)|(_ & Hname & Hrun)]];
    rewrite Hrun.
  - split; [reflexivity|]. intros [|] ? ? [=].
  - split; [reflexivity|]. intros [|] ? ? [=].
  - eapply (Paginates_replay (getSequences input)
              (normalizeName (sequenceName input)) 1 w).
    apply resolveSequenceId_loop_paginates.
Qed.

End Outcomes.

Lemma found_id_is_sound_witness :
  (exists s,
      sequenceId welcomeFlowQuery = Some s
      /\ "sequence_exact_match" = Js.trim s /\ "sequence_exact_match" <> ""
      /\ calls (resolveSequenceId welcomeFlowQuery []) = [])
  \/ (exists earlier c sequences found,
         calls (resolveSequenceId welcomeFlowQuery []) = (earlier ++ [c])%list
         /\ settled c = Fulfilled (Some sequences)
         /\ In found sequences
         /\ normalizeName (BentoSequence.attributes_name found)
            = normalizeName (sequenceName welcomeFlowQuery)
         /\ normalizeName (sequenceName welcomeFlowQuery) <> None
         /\ BentoSequence.id found = "sequence_exact_match").
Proof.
  apply (found_id_is_sound welcomeFlowQuery [] "sequence_exact_match").
  vm_compute. reflexivity.
Defined.

Lemma not_found_means_witness :
  (calls (resolveSequenceId missingQuery []) = []
   /\ normalizeName (sequenceName missingQuery) = None)
  \/ (exists earlier c,
         calls (resolveSequenceId missingQuery []) = (earlier ++ [c])%list
         /\ (settled c = Fulfilled None \/ settled c = Fulfilled (Some [])))
  \/ requested (resolveSequenceId missingQuery []) = seq 1 100.
Proof.
  refine (proj2 (not_found_means missingQuery [] _)).
  vm_compute. reflexivity.
Defined.

Lemma rejection_comes_from_fetcher_witness :
  exists earlier c,
    calls (resolveSequenceId rejectedQuery []) = (earlier ++ [c])%list
    /\ settled c = Rejected "503 Service Unavailable"
    /\ sequenceName rejectedQuery <> None.
Proof.
  apply (rejection_comes_from_fetcher rejectedQuery []
           "503 Service Unavailable").
  vm_compute. reflexivity.
Defined.

(** ** Exact matching *)

(** Every page that a search by name passed over held no sequence with the
    wanted name, and the page it returned from holds one. *)
Lemma search_returns_exact_match {World Reason : Type}
    (input : ResolveSequenceIdInput World Reason) (w : World) (i : string) :
  Js.toBoolean (option_map Js.trim (sequenceId input)) = false ->
  outcome (resolveSequenceId input w) = Fulfilled (Some i) ->
  exists earlier c sequences before found after,
    calls (resolveSequenceId input w) = (earlier ++ [c])%list
    /\ settled c = Fulfilled (Some sequences)
    /\ sequences = (before ++ found :: after)%list
    /\ normalizeName (BentoSequence.attributes_name found)
       = normalizeName (sequenceName input)
    /\ noMatch (normalizeName (sequenceName input)) before
    /\ BentoSequence.id found = i
    /\ Forall (fun c' =>
                 exists sequences',
                   settled c' = Fulfilled (Some sequences')
                   /\ noMatch (normalizeName (sequenceName input)) sequences')
              earlier.
Proof.
  intros Hid Hout.
  destruct (resolveSequenceId_cases input w)
    as [(s & Hs & Hne & _)|[(_ & _ & Hrun)|(_ & _ & Hrun)]].
  - rewrite Hs in Hid. cbn [option_map] in Hid.
    apply toBoolean_false in Hid as [[=]|[= Hid]]. contradiction.
  - rewrite Hrun in Hout. discriminate.
  - rewrite Hrun in *.
    pose proof (resolveSequenceId_loop_paginates (getSequences input)
                  (normalizeName (sequenceName input)) 1 w) as Hp.
    apply Paginates_ends in Hp as [[_ Hres]|(earlier & c & Hcs & Hall & Hlast)];
      [congruence|].
    destruct Hlast as [Hleave|(_ & Hres & _)]; [|congruence].
    rewrite Hout in Hleave.
    apply turn_Leave
      in Hleave as [(e & _ & [=])|[[_ [=]]|(sequences & found & Hs & Hf & Hi)]].
    injection Hi as ->.
    apply find_first in Hf as (before & after & Hsplit & Hfound & Hbefore).
    exists earlier, c, sequences, before, found, after.
    repeat split; try assumption.
    + now apply matchesName_eq.
    + intros x Hx. apply matchesName_false. auto.
    + eapply Forall_impl; [|exact Hall].
      intros c' Hc'. apply turn_NextPage in Hc' as (l & Hl & _ & Hno). eauto.
Qed.

(** A fetched page without a sequence of the wanted name never ends a search
    with an id: the search goes on to a further page or gives [null]. *)
Lemma search_passes_other_names {World Reason : Type}
    (input : ResolveSequenceIdInput World Reason) (w : World)
    (c : Call Reason) (sequences : list BentoSequence.t) :
  In c (calls (resolveSequenceId input w)) ->
  settled c = Fulfilled (Some sequences) ->
  noMatch (normalizeName (sequenceName input)) sequences ->
  outcome (resolveSequenceId input w) = Fulfilled None
  \/ exists earlier later,
       calls (resolveSequenceId input w) = (earlier ++ c :: later)%list
       /\ later <> [].
Proof.
  intros Hin Hc Hno.
  destruct (resolveSequenceId_cases input w)
    as [(s & _ & _ & Hrun)|[(_ & _ & Hrun)|(_ & _ & Hrun)]];
    rewrite Hrun in *; try (now destruct Hin).
  pose proof (resolveSequenceId_loop_paginates (getSequences input)
                (normalizeName (sequenceName input)) 1 w) as Hp.
  apply Paginates_ends in Hp as [[Hnil _]|(earlier & c0 & Hcs & _ & Hlast)].
  - rewrite Hnil in Hin. destruct Hin.
  - rewrite Hcs in *. apply in_app_or in Hin as [Hin|[<-|[]]].
    + right. apply in_split in Hin as (e1 & e2 & ->).
      exists e1, (e2 ++ [c0])%list. rewrite <- app_assoc. cbn [app].
      split; [reflexivity|]. now destruct e2.
    + left. destruct Hlast as [Hleave|(_ & Hres & _)]; [|exact Hres].
      apply turn_Leave
        in Hleave as [(e & He & _)|[[_ Hres]|(l & found & Hl & Hf & _)]].
      * congruence.
      * exact Hres.
      * rewrite Hc in Hl. injection Hl as <-.
        apply find_none_noMatch in Hno. congruence.
Qed.

(** C3, exact match only: a sequence is a match exactly when the
    normalization of its name (trim, then lower case, [null] for a missing or
    blank name) is the normalized wanted name, character by character.  Of
    every search by name: the id it gives is the id of the first sequence, on
    the last page fetched, whose normalized name is the normalized
    [sequenceName], and no page fetched before held such a sequence; and a
    fetched page on which every normalized name differs from the normalized
    [sequenceName], by however little, never ends the search with an id.  So
    "Welcome Flow Extended" is no match for "welcome flow" and
    "  WELCOME FLOW  " is one, and on the two pages of
    [createNearMatchThenExactPages] the resolver asks for pages 1 and 2 and
    fulfils with the id found on page 2. *)
Theorem exact_match_only :
  (forall (target : option string) (sequence : BentoSequence.t),
      matchesName target sequence = true <->
      normalizeName (BentoSequence.attributes_name sequence) = target)
  /\ (forall s : string,
        normalizeName (Some s)
        = if (Js.trim s =? "")%string then None
          else Some (Js.toLowerCase (Js.trim s)))
  /\ (forall (World Reason : Type)
             (input : ResolveSequenceIdInput World Reason) (w : World)
             (i : string),
         Js.toBoolean (option_map Js.trim (sequenceId input)) = false ->
         outcome (resolveSequenceId input w) = Fulfilled (Some i) ->
         exists earlier c sequences before found after,
           calls (resolveSequenceId input w) = (earlier ++ [c])%list
           /\ settled c = Fulfilled (Some sequences)
           /\ sequences = (before ++ found :: after)%list
           /\ normalizeName (BentoSequence.attributes_name found)
              = normalizeName (sequenceName input)
           /\ noMatch (normalizeName (sequenceName input)) before
           /\ BentoSequence.id found = i
           /\ Forall (fun c' =>
                        exists sequences',
                          settled c' = Fulfilled (Some sequences')
                          /\ noMatch (normalizeName (sequenceName input))
                                     sequences')
                     earlier)
  /\ (forall (World Reason : Type)
             (input : ResolveSequenceIdInput World Reason) (w : World)
             (c : Call Reason) (sequences : list BentoSequence.t),
         In c (calls (resolveSequenceId input w)) ->
         settled c = Fulfilled (Some sequences) ->
         noMatch (normalizeName (sequenceName input)) sequences ->
         outcome (resolveSequenceId input w) = Fulfilled None
         \/ exists earlier later,
              calls (resolveSequenceId input w) = (earlier ++ c :: later)%list
              /\ later <> [])
  /\ normalizeName (Some "welcome flow") = Some "welcome flow"
  /\ normalizeName (Some "Welcome Flow Extended") = Some "welcome flow extended"
  /\ normalizeName (Some "  WELCOME FLOW  ") = Some "welcome flow"
  /\ calls
       (resolveSequenceId
          {| sequenceId := None;
             sequenceName := Some "welcome flow";
             getSequences :=
               Fixtures.buildGetSequencesFromPages
                 Fixtures.createNearMatchThenExactPages |} [])
     = [ Build_Call 1
           (Fulfilled
              (Some [ Fixtures.named "sequence_near_match"
                                     "Welcome Flow Extended" ]));
         Build_Call 2
           (Fulfilled
              (Some [ Fixtures.named "sequence_exact_match"
                                     "  WELCOME FLOW  " ])) ]
  /\ outcome
       (resolveSequenceId
          {| sequenceId := None;
             sequenceName := Some "welcome flow";
             getSequences :=
               Fixtures.buildGetSequencesFromPages
                 Fixtures.createNearMatchThenExactPages |} [])
     = Fulfilled (Some "sequence_exact_match")
  /\ world
       (resolveSequenceId
          {| sequenceId := None;
             sequenceName := Some "welcome flow";
             getSequences :=
               Fixtures.buildGetSequencesFromPages
                 Fixtures.createNearMatchThenExactPages |} [])
     = [1; 2].
Proof.
  split; [exact matchesName_eq|].
  split; [exact normalizeName_Some|].
  split; [intros World Reason; exact search_returns_exact_match|].
  split; [intros World Reason; exact search_passes_other_names|].
  repeat split; vm_compute; reflexivity.
Qed.

Lemma exact_match_only_witness :
  outcome (resolveSequenceId welcomeFlowQuery []) = Fulfilled None
  \/ exists earlier later,
       calls (resolveSequenceId welcomeFlowQuery [])
       = (earlier
          ++ Build_Call 1
               (Fulfilled
                  (Some [ Fixtures.named "sequence_near_match"
                                         "Welcome Flow Extended" ]))
             :: later)%list
       /\ later <> [].
Proof.
  apply (proj1 (proj2 (proj2 (proj2 exact_match_only))) (list nat) string
           welcomeFlowQuery []
           (Build_Call 1
              (Fulfilled
                 (Some [ Fixtures.named "sequence_near_match"
                                        "Welcome Flow Extended" ])))
           [ Fixtures.named "sequence_near_match" "Welcome Flow Extended" ]).
  - vm_compute. left. reflexivity.
  - reflexivity.
  - intros x [<-|[]]. vm_compute. discriminate.
Defined.

(** ** Insensitivity to white space *)

(** The search does not see white space around a name, on the side of the
    query (the whole run is the same) and on the side of the sequences (the
    same sequences match). *)
Theorem resolution_ignores_padding {World Reason : Type} (l s r : string) :
  Js.isBlank l = true -> Js.isBlank r = true ->
  (forall (i : option string) (fetch : GetSequences World Reason) (w : World),
      resolveSequenceId
        {| sequenceId := i; sequenceName := Some (l ++ s ++ r);
           getSequences := fetch |} w
      = resolveSequenceId
          {| sequenceId := i; sequenceName := Some s; getSequences := fetch |} w)
  /\ (forall (target : option string) (i : string),
         matchesName target
           {| BentoSequence.id := i;
              BentoSequence.attributes := Some {| name := Some (l ++ s ++ r) |} |}
         = matchesName target
             {| BentoSequence.id := i;
                BentoSequence.attributes := Some {| name := Some s |} |}).
Proof.
  intros Hl Hr.
  pose proof (normalizeName_Some (l ++ s ++ r)) as Hn.
  rewrite (trim_padding l s r Hl Hr), <- normalizeName_Some in Hn.
  split.
  - intros i fetch w. unfold resolveSequenceId.
    cbn [sequenceId sequenceName getSequences]. now rewrite Hn.
  - intros target i. unfold matchesName.
    cbn [BentoSequence.attributes_name BentoSequence.attributes name].
    now rewrite Hn.
Qed.

Lemma resolution_ignores_padding_witness :
  resolveSequenceId
    {| sequenceId := None; sequenceName := Some (" " ++ "welcome flow" ++ "  ");
       getSequences := getSequences welcomeFlowQuery |} []
  = resolveSequenceId welcomeFlowQuery [].
Proof.
  apply (proj1 (resolution_ignores_padding (World := list nat)
                  (Reason := string) " " "welcome flow" "  "
                  eq_refl eq_refl)).
Defined.

(** The same for [sequenceId]: white space around a usable id changes
    nothing. *)
Theorem sequenceId_padding {World Reason : Type} (l s r : string)
    (name : option string) (fetch : GetSequences World Reason) (w : World) :
  Js.isBlank l = true -> Js.isBlank r = true ->
  resolveSequenceId
    {| sequenceId := Some (l ++ s ++ r); sequenceName := name;
       getSequences := fetch |} w
  = resolveSequenceId
      {| sequenceId := Some s; sequenceName := name; getSequences := fetch |} w.
Proof.
  intros Hl Hr. unfold resolveSequenceId.
  cbn [sequenceId sequenceName getSequences option_map].
  now rewrite (trim_padding l s r Hl Hr).
Qed.

Lemma sequenceId_padding_witness :
  resolveSequenceId
    {| sequenceId := Some ("  " ++ "sequence_abc123" ++ "  ");
       sequenceName := None;
       getSequences := getSequences missingQuery |} []
  = resolveSequenceId
      {| sequenceId := Some "sequence_abc123";
         sequenceName := None;
         getSequences := getSequences missingQuery |} [].
Proof.
  apply (sequenceId_padding "  " "sequence_abc123" "  " None
           (getSequences missingQuery) []); reflexivity.
Defined.

(** ** Fetchers that read a table of pages *)

Lemma find_app_first {A : Type} (p : A -> bool) (l1 l2 : list A) :
  find p (l1 ++ l2)%list
  = match find p l1 with Some x => Some x | None => find p l2 end.
Proof.
  induction l1 as [|x l1 IH]; cbn [app find]; [reflexivity|].
  destruct (p x); [reflexivity | exact IH].
Qed.

Lemma replay_table (pages : Fixtures.PagedSequences) (asked : list nat) :
  forall w : list nat,
    replay (Reason := string) (Fixtures.buildGetSequencesFromPages pages)
      w asked
    = (w ++ asked)%list.
Proof.
  unfold replay.
  induction asked as [|p asked IH]; intros w; cbn [fold_left].
  - now rewrite app_nil_r.
  - rewrite IH. cbn [Fixtures.buildGetSequencesFromPages snd].
    now rewrite <- app_assoc.
Qed.

Lemma table_world (pages : Fixtures.PagedSequences)
    (i name : option string) (requestedPages : list nat) :
  world
    (resolveSequenceId
       {| sequenceId := i; sequenceName := name;
          getSequences := Fixtures.buildGetSequencesFromPages pages |}
       requestedPages)
  = (requestedPages
     ++ requested
          (resolveSequenceId
             {| sequenceId := i; sequenceName := name;
                getSequences := Fixtures.buildGetSequencesFromPages pages |}
             requestedPages))%list
  /\ exists v,
       outcome
         (resolveSequenceId
            {| sequenceId := i; sequenceName := name;
               getSequences := Fixtures.buildGetSequencesFromPages pages |}
            requestedPages)
       = Fulfilled v.
Proof.
  split.
  - rewrite (proj1 (world_replays_calls _ _)).
    cbn [getSequences]. apply replay_table.
  - destruct (outcome _) as [v|e] eqn:Hout; [eauto|].
    apply rejection_comes_from_fetcher in Hout as (earlier & c & Hcs & Hc & _).
    pose proof (proj2 (world_replays_calls _ _) earlier c [] Hcs) as Hlog.
    rewrite Hc in Hlog. discriminate.
Qed.

(** After a run on the fetcher of the tests, the array [requestedPages]
    holds what it held before, followed by 1, 2, ..., k, where k is the
    number of calls that the resolver made, 100 at most; and the run is not
    rejected. *)
Theorem requestedPages_is_one_to_k (pages : Fixtures.PagedSequences)
    (i name : option string) (requestedPages : list nat) :
  exists k,
    k <= 100
    /\ k = List.length
             (calls
                (resolveSequenceId
                   {| sequenceId := i; sequenceName := name;
                      getSequences :=
                        Fixtures.buildGetSequencesFromPages pages |}
                   requestedPages))
    /\ world
         (resolveSequenceId
            {| sequenceId := i; sequenceName := name;
               getSequences := Fixtures.buildGetSequencesFromPages pages |}
            requestedPages)
       = (requestedPages ++ seq 1 k)%list
    /\ exists v,
         outcome
           (resolveSequenceId
              {| sequenceId := i; sequenceName := name;
                 getSequences := Fixtures.buildGetSequencesFromPages pages |}
              requestedPages)
         = Fulfilled v.
Proof.
  destruct (table_world pages i name requestedPages) as [Hworld Hout].
  destruct (resolveSequenceId_requested
              {| sequenceId := i; sequenceName := name;
                 getSequences := Fixtures.buildGetSequencesFromPages pages |}
              requestedPages) as [Hreq Hlen].
  eexists. split; [exact Hlen|]. split; [reflexivity|].
  split; [|exact Hout]. rewrite Hworld, Hreq. reflexivity.
Qed.

Lemma table_loop_is_flat_search (pages : Fixtures.PagedSequences)
    (target : option string) (n : nat) :
  forall (p : nat) (w : list nat),
    p + n = MAX_SEQUENCE_PAGES + 1 ->
    outcome
      (resolveSequenceId_loop (Reason := string)
         (Fixtures.buildGetSequencesFromPages pages) target p w)
    = Fulfilled
        (option_map BentoSequence.id
           (find (matchesName target)
              (List.concat
                 (takeWhile
                    (fun sequences => negb (List.length sequences =? 0)%nat)
                    (map (pageOrEmpty pages) (seq p n)))))).
Proof.
  induction n as [|n IH]; intros p w Hp; rewrite resolveSequenceId_loop_run;
    destruct (Nat.leb_spec p MAX_SEQUENCE_PAGES) as [Hle|Hgt]; try lia.
  - reflexivity.
  - cbn [Fixtures.buildGetSequencesFromPages seq map takeWhile turn].
    fold (pageOrEmpty pages p).
    destruct (pageOrEmpty pages p) as [|x l] eqn:Hpage;
      cbn [List.length Nat.eqb negb]; [reflexivity|].
    cbn [List.concat]. rewrite find_app_first.
    destruct (find (matchesName target) (x :: l)) as [found|];
      [reflexivity|].
    cbn [outcome]. rewrite (IH (p + 1)) by lia.
    now rewrite Nat.add_1_r.
Qed.

(** On a fetcher that reads a table of pages, the search by name is the
    search for the first sequence with the wanted name in the sequences that
    the table lists: those of pages 1, 2, ... up to the first empty page, 100
    pages at most. *)
Theorem table_search_is_flat_search (pages : Fixtures.PagedSequences)
    (i name : option string) (requestedPages : list nat) :
  Js.toBoolean (option_map Js.trim i) = false ->
  normalizeName name <> None ->
  outcome
    (resolveSequenceId
       {| sequenceId := i; sequenceName := name;
          getSequences := Fixtures.buildGetSequencesFromPages pages |}
       requestedPages)
  = Fulfilled
      (option_map BentoSequence.id
         (find (matchesName (normalizeName name)) (listed pages))).
Proof.
  intros Hid Hname.
  rewrite resolveSequenceId_by_name by exact Hid.
  cbn [sequenceName getSequences].
  destruct (Js.toBoolean (normalizeName name)) eqn:Ht.
  - cbn [negb]. now apply table_loop_is_flat_search.
  - apply normalizeName_truthy in Ht. contradiction.
Qed.

Lemma table_search_is_flat_search_witness :
  outcome (resolveSequenceId welcomeFlowQuery [])
  = Fulfilled
      (option_map BentoSequence.id
         (find (matchesName (normalizeName (Some "welcome flow")))
            (listed Fixtures.createNearMatchThenExactPages))).
Proof.
  apply (table_search_is_flat_search Fixtures.createNearMatchThenExactPages
           None (Some "welcome flow") []).
  - reflexivity.
  - vm_compute. discriminate.
Defined.

(** ** The fixture with a match on a chosen page *)

Lemma fold_set_lookup (filler : nat -> list BentoSequence.t) (keys : list nat) :
  forall (base : Fixtures.PagedSequences) (k : nat),
    fold_left (fun pages page => Fixtures.set pages page (filler page))
      keys base k
    = if existsb (Nat.eqb k) keys then Some (filler k) else base k.
Proof.
  induction keys as [|a keys IH]; intros base k; cbn [fold_left existsb];
    [reflexivity|].
  rewrite IH. unfold Fixtures.set.
  destruct (existsb (Nat.eqb k) keys); [now rewrite orb_true_r|].
  rewrite orb_false_r.
  destruct (Nat.eqb_spec k a) as [->|]; reflexivity.
Qed.

Lemma existsb_seq (k start len : nat) :
  existsb (Nat.eqb k) (seq start len)
  = ((start <=? k) && (k <? start + len))%nat.
Proof.
  destruct (existsb (Nat.eqb k) (seq start len)) eqn:E; symmetry.
  - apply existsb_exists in E as (x & Hin & Hx).
    apply Nat.eqb_eq in Hx as <-. apply in_seq in Hin.
    apply andb_true_iff. split; [apply Nat.leb_le | apply Nat.ltb_lt]; lia.
  - apply not_true_is_false. intros H.
    apply andb_true_iff in H as [H1 H2].
    apply Nat.leb_le in H1. apply Nat.ltb_lt in H2.
    assert (existsb (Nat.eqb k) (seq start len) = true) as Habs.
    { apply existsb_exists. exists k. split;
        [apply in_seq; lia | apply Nat.eqb_refl]. }
    congruence.
Qed.

(** [createPagesWithMatchOnPage] throws for [matchPage] 0; for any other
    [matchPage] it gives the table with the two filler sequences on each of
    the pages 1 to [matchPage], the sequence named [matchName] after them on
    page [matchPage], and no other page. *)
Theorem createPagesWithMatchOnPage_shape (matchPage : nat)
    (matchName : string) :
  (matchPage = 0 ->
   Fixtures.createPagesWithMatchOnPage matchPage matchName = None)
  /\ (1 <= matchPage ->
      exists pages,
        Fixtures.createPagesWithMatchOnPage matchPage matchName = Some pages
        /\ forall k,
             pages k
             = if (k =? matchPage)%nat
               then Some (fillerPage k ++ [matchEntry k matchName])%list
               else if ((1 <=? k) && (k <? matchPage))%nat
                    then Some (fillerPage k)
                    else None).
Proof.
  unfold Fixtures.createPagesWithMatchOnPage. split.
  - intros ->. reflexivity.
  - intros Hn.
    change (fun (pages : Fixtures.PagedSequences) (page : nat) =>
              Fixtures.set pages page
                [ Fixtures.named ("sequence_" ++ Fixtures.decimal page ++ "_a")
                    ("Sequence " ++ Fixtures.decimal page ++ " A");
                  Fixtures.named ("sequence_" ++ Fixtures.decimal page ++ "_b")
                    ("Sequence " ++ Fixtures.decimal page ++ " B") ])
      with (fun (pages : Fixtures.PagedSequences) (page : nat) =>
              Fixtures.set pages page (fillerPage page)).
    rewrite (fold_set_lookup fillerPage (seq 1 matchPage) Fixtures.empty
               matchPage).
    rewrite existsb_seq.
    replace ((1 <=? matchPage) && (matchPage <? 1 + matchPage))%nat with true
      by (symmetry; apply andb_true_iff;
          split; [apply Nat.leb_le | apply Nat.ltb_lt]; lia).
    eexists. split; [reflexivity|].
    intros k. unfold Fixtures.set at 1.
    destruct (Nat.eqb_spec k matchPage) as [->|Hk]; [reflexivity|].
    rewrite fold_set_lookup, existsb_seq.
    replace (k <? 1 + matchPage)%nat with (k <? matchPage)%nat
      by (destruct (Nat.ltb_spec k matchPage), (Nat.ltb_spec k (1 + matchPage));
          try reflexivity; lia).
    reflexivity.
Qed.

Lemma createPagesWithMatchOnPage_shape_witness :
  exists pages,
    Fixtures.createPagesWithMatchOnPage 2 "Welcome" = Some pages
    /\ forall k,
         pages k
         = if (k =? 2)%nat
           then Some (fillerPage k ++ [matchEntry k "Welcome"])%list
           else if ((1 <=? k) && (k <? 2))%nat
                then Some (fillerPage k)
                else None.
Proof.
  apply (proj2 (createPagesWithMatchOnPage_shape 2 "Welcome")). lia.
Defined.

(** Pages of a table that are neither empty nor hold a match are passed
    over, one call each. *)
Lemma table_skip (pages : Fixtures.PagedSequences) (target : option string)
    (k : nat) :
  forall (p : nat) (w : list nat),
    p + k <= MAX_SEQUENCE_PAGES + 1 ->
    (forall j, p <= j < p + k ->
       pageOrEmpty pages j <> []
       /\ find (matchesName target) (pageOrEmpty pages j) = None) ->
    outcome
      (resolveSequenceId_loop (Reason := string)
         (Fixtures.buildGetSequencesFromPages pages) target p w)
    = outcome
        (resolveSequenceId_loop (Reason := string)
           (Fixtures.buildGetSequencesFromPages pages) target (p + k)
           (w ++ seq p k)%list)
    /\ world
         (resolveSequenceId_loop (Reason := string)
            (Fixtures.buildGetSequencesFromPages pages) target p w)
       = world
           (resolveSequenceId_loop (Reason := string)
              (Fixtures.buildGetSequencesFromPages pages) target (p + k)
              (w ++ seq p k)%list).
Proof.
  induction k as [|k IH]; intros p w Hle Hpages.
  - cbn [seq]. rewrite Nat.add_0_r, app_nil_r. split; reflexivity.
  - rewrite (resolveSequenceId_loop_run _ _ p w).
    destruct (Nat.leb_spec p MAX_SEQUENCE_PAGES) as [Hp|Hp]; [|lia].
    cbn [Fixtures.buildGetSequencesFromPages turn].
    fold (pageOrEmpty pages p).
    destruct (Hpages p) as [Hne Hfind]; [lia|].
    rewrite Hfind.
    destruct (pageOrEmpty pages p) as [|x l]; [contradiction|].
    cbn [List.length Nat.eqb outcome world].
    destruct (IH (p + 1) (w ++ [p])%list) as [IHo IHw];
      [lia | intros j Hj; apply Hpages; lia|].
    rewrite IHo, IHw.
    replace (p + 1 + k) with (p + S k) by lia.
    replace ((w ++ [p]) ++ seq (p + 1) k)%list with (w ++ seq p (S k))%list;
      [split; reflexivity|].
    cbn [seq]. rewrite <- app_assoc, Nat.add_1_r. reflexivity.
Qed.

(** A page of a table that holds a match ends the run. *)
Lemma table_found_here (pages : Fixtures.PagedSequences)
    (target : option string) (p : nat) (w : list nat)
    (found : BentoSequence.t) :
  p <= MAX_SEQUENCE_PAGES ->
  find (matchesName target) (pageOrEmpty pages p) = Some found ->
  resolveSequenceId_loop (Reason := string)
    (Fixtures.buildGetSequencesFromPages pages) target p w
  = Build_Run (Fulfilled (Some (BentoSequence.id found))) (w ++ [p])%list
      [Build_Call p (Fulfilled (Some (pageOrEmpty pages p)))].
Proof.
  intros Hp Hfind. rewrite resolveSequenceId_loop_run.
  destruct (Nat.leb_spec p MAX_SEQUENCE_PAGES) as [_|Hgt]; [|lia].
  cbn [Fixtures.buildGetSequencesFromPages turn].
  fold (pageOrEmpty pages p). rewrite Hfind.
  destruct (pageOrEmpty pages p) as [|x l]; [discriminate|].
  reflexivity.
Qed.

Lemma fillerPage_passed (k : nat) (c : ascii) (rest : string) :
  c <> "s"%char ->
  fillerPage k <> []
  /\ find (matchesName (Some (String c rest))) (fillerPage k) = None.
Proof.
  intros Hc. split; [discriminate|].
  apply find_none_noMatch.
  intros x [<-|[<-|[]]];
    cbn [Fixtures.named BentoSequence.attributes_name BentoSequence.attributes
         name append];
    match goal with
    | |- normalizeName (Some (String ?a ?tail)) <> _ =>
        destruct (normalizeName_head a tail eq_refl) as [kept ->]
    end;
    intros [= H _]; vm_compute in H; congruence.
Qed.

(** The deep-pagination fixture, for any page: a search for the name of the
    pushed sequence (a name that, normalized, does not start with an s, as
    the filler names do) finds that sequence after asking for the pages 1 to
    [matchPage] when [matchPage] is at most 100; when it is beyond, the
    search asks for the pages 1 to 100 and gives [null]. *)
Theorem match_on_page_found_up_to_ceiling (matchPage : nat)
    (matchName : string) (query : option string)
    (pages : Fixtures.PagedSequences) (c : ascii) (rest : string)
    (requestedPages : list nat) :
  Fixtures.createPagesWithMatchOnPage matchPage matchName = Some pages ->
  normalizeName query = Some (String c rest) ->
  normalizeName (Some matchName) = Some (String c rest) ->
  c <> "s"%char ->
  (matchPage <= 100 ->
   outcome
     (resolveSequenceId
        {| sequenceId := None; sequenceName := query;
           getSequences := Fixtures.buildGetSequencesFromPages pages |}
        requestedPages)
   = Fulfilled (Some ("sequence_match_page_" ++ Fixtures.decimal matchPage))
   /\ world
        (resolveSequenceId
           {| sequenceId := None; sequenceName := query;
              getSequences := Fixtures.buildGetSequencesFromPages pages |}
           requestedPages)
      = (requestedPages ++ seq 1 matchPage)%list)
  /\ (100 < matchPage ->
      outcome
        (resolveSequenceId
           {| sequenceId := None; sequenceName := query;
              getSequences := Fixtures.buildGetSequencesFromPages pages |}
           requestedPages)
      = Fulfilled None
      /\ world
           (resolveSequenceId
              {| sequenceId := None; sequenceName := query;
                 getSequences := Fixtures.buildGetSequencesFromPages pages |}
              requestedPages)
         = (requestedPages ++ seq 1 100)%list).
Proof.
  intros Hcreate Hquery Hname Hc.
  assert (MAX_SEQUENCE_PAGES = 100) as Hmax by reflexivity.
  destruct (createPagesWithMatchOnPage_shape matchPage matchName)
    as [Hzero Hshape].
  destruct matchPage as [|m]; [rewrite Hzero in Hcreate; discriminate|].
  destruct Hshape as (pages' & Hcreate' & Hpages); [lia|].
  rewrite Hcreate in Hcreate'. injection Hcreate' as <-.
  assert (forall j, 1 <= j < S m -> pageOrEmpty pages j = fillerPage j)
    as Hfiller.
  { intros j Hj. unfold pageOrEmpty. rewrite Hpages.
    destruct (Nat.eqb_spec j (S m)); [lia|].
    destruct (Nat.leb_spec 1 j); [|lia].
    destruct (Nat.ltb_spec j (S m)); [reflexivity | lia]. }
  rewrite resolveSequenceId_by_name by reflexivity.
  cbn [sequenceName getSequences]. rewrite Hquery.
  cbn [Js.toBoolean String.eqb negb].
  split; intros Hbound.
  - destruct (table_skip pages (Some (String c rest)) m 1 requestedPages)
      as [Ho Hw];
      [lia | intros j Hj; rewrite Hfiller by lia; now apply fillerPage_passed|].
    rewrite Ho, Hw. replace (1 + m) with (S m) by lia.
    rewrite (table_found_here pages (Some (String c rest)) (S m)
               (requestedPages ++ seq 1 m)%list (matchEntry (S m) matchName)).
    + cbn [outcome world matchEntry Fixtures.named BentoSequence.id].
      split; [reflexivity|].
      rewrite <- app_assoc. f_equal. rewrite seq_S. reflexivity.
    + lia.
    + unfold pageOrEmpty. rewrite Hpages, Nat.eqb_refl, find_app_first.
      rewrite (proj2 (fillerPage_passed (S m) c rest Hc)).
      cbn [find].
      replace (matchesName (Some (String c rest)) (matchEntry (S m) matchName))
        with true; [reflexivity|].
      symmetry. apply matchesName_eq. exact Hname.
  - destruct (table_skip pages (Some (String c rest)) 100 1 requestedPages)
      as [Ho Hw];
      [lia | intros j Hj; rewrite Hfiller by lia; now apply fillerPage_passed|].
    rewrite Ho, Hw. rewrite resolveSequenceId_loop_run.
    split; reflexivity.
Qed.

Lemma match_on_page_found_up_to_ceiling_witness :
  exists pages,
    Fixtures.createPagesWithMatchOnPage 101 " Welcome Campaign " = Some pages
    /\ outcome
         (resolveSequenceId
            {| sequenceId := None; sequenceName := Some "welcome campaign";
               getSequences := Fixtures.buildGetSequencesFromPages pages |}
            [])
       = Fulfilled None.
Proof.
  eexists. split; [reflexivity|].
  refine (proj1 (proj2 (match_on_page_found_up_to_ceiling
                          101 " Welcome Campaign " (Some "welcome campaign")
                          _ "w" "elcome campaign" [] eq_refl _ _ _) _)).
  - reflexivity.
  - reflexivity.
  - discriminate.
  - lia.
Defined.

(** * The setup command line *)

Section SetupCliFacts.

Import SetupCli.

(** A valid client name is none of the flags. *)
Lemma validClient_is_no_flag (c : string) :
  includes validClients c = true ->
  In c validClients
  /\ Js.toBoolean (Some c) = true
  /\ forall flag,
       In flag ["--client"; "--all"; "--yes"; "-y"; "--dry-run"; "--print";
                "--write-secrets"; "--help"; "-h"] ->
       (flag =? c)%string = false.
Proof.
  unfold includes, validClients. cbn [existsb]. intros H.
  repeat (apply orb_true_iff in H as [H|H]); try discriminate;
    apply String.eqb_eq in H; subst c;
    (split; [cbn; tauto|]); (split; [reflexivity|]);
    intros flag Hflag; cbn [In] in Hflag;
    repeat (destruct Hflag as [<-|Hflag]; [reflexivity|]);
    destruct Hflag.
Qed.

(** Case analysis on the first argument, as the [switch] does it. *)
Ltac switch_on arg :=
  destruct (String.eqb_spec arg "--client") as [->|?];
  [|destruct (String.eqb_spec arg "--all") as [->|?];
    [|destruct (String.eqb_spec arg "--yes") as [->|?];
      [|destruct (String.eqb_spec arg "-y") as [->|?];
        [|destruct (String.eqb_spec arg "--dry-run") as [->|?];
          [|destruct (String.eqb_spec arg "--print") as [->|?];
            [|destruct (String.eqb_spec arg "--write-secrets") as [->|?];
              [|destruct (String.eqb_spec arg "--help") as [->|?];
                [|destruct (String.eqb_spec arg "-h") as [->|?]]]]]]]]].

Ltac simplify_switch :=
  repeat match goal with
         | H : ?x <> ?y |- context [(?x =? ?y)%string] =>
             rewrite (proj2 (String.eqb_neq x y) H)
         | H : ?x <> ?y |- context [(?y =? ?x)%string] =>
             rewrite (proj2 (String.eqb_neq y x) (not_eq_sym H))
         end;
  repeat match goal with
         | |- context [String.eqb ?a ?b] =>
             let v := eval vm_compute in (String.eqb a b) in
             match v with
             | true => change (String.eqb a b) with true
             | false => change (String.eqb a b) with false
             end
         end;
  cbn [orb negb].

(** Induction on the arguments as the loop consumes them: one at a time, or
    two at [--client]. *)
Lemma args_ind2 (P : list string -> Prop) :
  P [] ->
  (forall arg rest, P rest -> (forall x rest', rest = x :: rest' -> P rest') ->
                    P (arg :: rest)) ->
  forall args, P args.
Proof.
  intros Hnil Hcons args.
  assert (P args /\ forall x rest', args = x :: rest' -> P rest') as [H _];
    [|exact H].
  induction args as [|arg rest [IH1 IH2]].
  - split; [exact Hnil | discriminate].
  - split; [now apply Hcons|]. now intros x rest' [= _ <-].
Qed.

(** When a first part of the arguments is parsed without exit, the rest is
    parsed from the options reached. *)
Lemma parseSetupArgs_app (a b : list string) :
  forall (options options' : SetupOptions),
    parseSetupArgs_loop a options = Returns options' ->
    parseSetupArgs_loop (a ++ b) options = parseSetupArgs_loop b options'.
Proof.
  induction a as [|arg rest IH IH2] using args_ind2; intros options options'.
  - cbn. now intros [= ->].
  - cbn [app parseSetupArgs_loop]. switch_on arg; simplify_switch;
      try (now apply IH); try discriminate.
    destruct rest as [|clientArg rest']; [discriminate|]. cbn [app].
    destruct (negb (Js.toBoolean (Some clientArg))
              || negb (includes validClients clientArg));
      [discriminate|].
    now apply (IH2 clientArg rest' eq_refl).
Qed.

Lemma includes_In (l : list string) (x : string) :
  includes l x = true <-> In x l.
Proof.
  unfold includes. rewrite existsb_exists. split.
  - intros (y & Hy & Heq). apply String.eqb_eq in Heq. now subst.
  - intros H. exists x. split; [exact H | apply String.eqb_refl].
Qed.

(** The arguments are read from left to right: when a first part is parsed
    without exit, the rest is parsed from the options reached; so a
    [--client] with a valid name, or an [--all], at the end sets the client,
    whatever client came before, and leaves the other options alone. *)
Theorem parseSetupArgs_left_to_right (a : list string)
    (options reached : SetupOptions) :
  parseSetupArgs_loop a options = Returns reached ->
  (forall b,
      parseSetupArgs_loop (a ++ b) options = parseSetupArgs_loop b reached)
  /\ (forall c,
         In c validClients ->
         parseSetupArgs_loop (a ++ ["--client"; c]) options
         = Returns {| client := Some c; yes := yes reached;
                      dryRun := dryRun reached; print := print reached;
                      writeSecrets := writeSecrets reached |})
  /\ parseSetupArgs_loop (a ++ ["--all"]) options
     = Returns {| client := Some "all"; yes := yes reached;
                  dryRun := dryRun reached; print := print reached;
                  writeSecrets := writeSecrets reached |}.
Proof.
  intros H. split; [|split].
  - intros b. now apply parseSetupArgs_app.
  - intros c Hc. rewrite (parseSetupArgs_app a _ options reached H).
    apply includes_In in Hc.
    destruct (validClient_is_no_flag c Hc) as (_ & Htrue & _).
    cbn [parseSetupArgs_loop]. simplify_switch.
    rewrite Htrue, Hc. reflexivity.
  - rewrite (parseSetupArgs_app a _ options reached H). reflexivity.
Qed.

Lemma parseSetupArgs_left_to_right_witness :
  parseSetupArgs_loop (["--all"; "--yes"] ++ ["--client"; "cursor"]) noOptions
  = Returns {| client := Some "cursor"; yes := Some true; dryRun := None;
               print := None; writeSecrets := None |}.
Proof.
  apply (proj1 (proj2 (parseSetupArgs_left_to_right ["--all"; "--yes"]
                         noOptions
                         {| client := Some "all"; yes := Some true;
                            dryRun := None; print := None;
                            writeSecrets := None |} eq_refl)) "cursor").
  cbn. tauto.
Defined.

(** Whether a flag is among the arguments. *)
Lemma includes_cons (x arg : string) (rest : list string) :
  includes (arg :: rest) x = ((x =? arg)%string || includes rest x).
Proof. reflexivity. Qed.

Lemma lastClient_cons (arg : string) (rest : list string) (c : string) :
  lastClient rest c -> lastClient (arg :: rest) c.
Proof.
  intros (before & after & Hdec & H1 & H2).
  exists (arg :: before), after. split; [|auto].
  destruct Hdec as [->|[-> ->]]; [left | right]; auto.
Qed.

Lemma lastClient_cons2 (arg arg' : string) (rest : list string) (c : string) :
  lastClient rest c -> lastClient (arg :: arg' :: rest) c.
Proof. intros H. now apply lastClient_cons, lastClient_cons. Qed.

Ltac settle_returns Hc :=
  match goal with
  | |- (if ?b then exists c, _ else _) =>
      destruct b; [|exact Hc];
      let c := fresh "c" in
      let Hlast := fresh "Hlast" in
      let Hv := fresh "Hv" in
      let Hcl := fresh "Hcl" in
      destruct Hc as (c & Hlast & Hv & Hcl); exists c;
      repeat split; try assumption; now apply lastClient_cons
  | |- _ = _ =>
      repeat match goal with
             | |- context [if ?b then _ else _] => destruct b
             end;
      reflexivity
  end.

(** What the loop returns, read off the arguments: a flag option is [true]
    when its flag occurs and keeps its value otherwise; the client is the one
    set by the last [--client] or [--all], a valid one, and is kept when
    there is none; and neither help flag occurs. *)
Lemma parseSetupArgs_loop_returns (args : list string) :
  forall (options result : SetupOptions),
    parseSetupArgs_loop args options = Returns result ->
    yes result
    = (if includes args "--yes" || includes args "-y" then Some true
       else yes options)
    /\ dryRun result
       = (if includes args "--dry-run" then Some true else dryRun options)
    /\ print result
       = (if includes args "--print" then Some true else print options)
    /\ writeSecrets result
       = (if includes args "--write-secrets" then Some true
          else writeSecrets options)
    /\ (if includes args "--client" || includes args "--all"
        then exists c,
               lastClient args c /\ In c validClients
               /\ client result = Some c
        else client result = client options)
    /\ includes args "--help" = false
    /\ includes args "-h" = false.
Proof.
  induction args as [|arg rest IH IH2] using args_ind2;
    intros options result.
  - cbn. intros [= ->]. auto 10.
  - cbn [parseSetupArgs_loop]. rewrite !includes_cons.
    switch_on arg; simplify_switch; try discriminate.
    + destruct rest as [|clientArg rest']; [discriminate|].
      destruct (includes validClients clientArg) eqn:Hvalid;
        [|rewrite orb_true_r; discriminate].
      destruct (validClient_is_no_flag clientArg Hvalid)
        as (Hin & Htrue & Hflag).
      rewrite Htrue. cbn [negb orb]. intros H.
      apply (IH2 clientArg rest' eq_refl) in H
        as (Hy & Hd & Hp & Hw & Hc & Hh & Hh').
      clear IH IH2.
      cbn [yes dryRun print writeSecrets client] in *.
      rewrite !includes_cons, !Hflag by (cbn; tauto). cbn [orb].
      rewrite Hy, Hd, Hp, Hw. repeat split; try assumption.
      destruct (includes rest' "--client" || includes rest' "--all") eqn:E.
      * destruct Hc as (c & Hlast & Hv & Hcl). exists c.
        repeat split; try assumption. now apply lastClient_cons2.
      * apply orb_false_iff in E as [E1 E2]. exists clientArg.
        repeat split; try assumption.
        exists [], rest'. repeat split; try assumption. now left.
    + intros H. apply IH in H as (Hy & Hd & Hp & Hw & Hc & Hh & Hh').
      clear IH IH2. cbn [yes dryRun print writeSecrets client] in *.
      rewrite Hy, Hd, Hp, Hw, orb_true_r. repeat split; try assumption.
      destruct (includes rest "--client" || includes rest "--all") eqn:E.
      * destruct Hc as (c & Hlast & Hv & Hcl). exists c.
        repeat split; try assumption. now apply lastClient_cons.
      * apply orb_false_iff in E as [E1 E2]. exists "all".
        repeat split; try assumption; [|cbn; tauto].
        exists [], rest. repeat split; try assumption. right. auto.
    + intros H. apply IH in H as (Hy & Hd & Hp & Hw & Hc & Hh & Hh').
      clear IH IH2. cbn [yes dryRun print writeSecrets client] in *.
      rewrite Hy, Hd, Hp, Hw, ?orb_true_r.
      repeat split; try assumption; settle_returns Hc.
    + intros H. apply IH in H as (Hy & Hd & Hp & Hw & Hc & Hh & Hh').
      clear IH IH2. cbn [yes dryRun print writeSecrets client] in *.
      rewrite Hy, Hd, Hp, Hw, ?orb_true_r.
      repeat split; try assumption; settle_returns Hc.
    + intros H. apply IH in H as (Hy & Hd & Hp & Hw & Hc & Hh & Hh').
      clear IH IH2. cbn [yes dryRun print writeSecrets client] in *.
      rewrite Hy, Hd, Hp, Hw, ?orb_true_r.
      repeat split; try assumption; settle_returns Hc.
    + intros H. apply IH in H as (Hy & Hd & Hp & Hw & Hc & Hh & Hh').
      clear IH IH2. cbn [yes dryRun print writeSecrets client] in *.
      rewrite Hy, Hd, Hp, Hw, ?orb_true_r.
      repeat split; try assumption; settle_returns Hc.
    + intros H. apply IH in H as (Hy & Hd & Hp & Hw & Hc & Hh & Hh').
      clear IH IH2. cbn [yes dryRun print writeSecrets client] in *.
      rewrite Hy, Hd, Hp, Hw, ?orb_true_r.
      repeat split; try assumption; settle_returns Hc.
    + intros H. apply IH in H as (Hy & Hd & Hp & Hw & Hc & Hh & Hh').
      clear IH IH2. cbn [yes dryRun print writeSecrets client] in *.
      rewrite Hy, Hd, Hp, Hw, ?orb_true_r.
      repeat split; try assumption; settle_returns Hc.
Qed.

(** The options that [parseSetupArgs] returns, read off the arguments: a flag
    option is [true] when its flag occurs, anywhere and however often, and is
    left out otherwise (never [false]); [client] is the valid name that the
    last [--client] or [--all] among the arguments sets, and is left out when
    there is none; and no help flag occurs among the arguments. *)
Theorem parseSetupArgs_returns (args : list string) (result : SetupOptions) :
  parseSetupArgs args = Returns result ->
  yes result
  = (if includes args "--yes" || includes args "-y" then Some true else None)
  /\ dryRun result = (if includes args "--dry-run" then Some true else None)
  /\ print result = (if includes args "--print" then Some true else None)
  /\ writeSecrets result
     = (if includes args "--write-secrets" then Some true else None)
  /\ (if includes args "--client" || includes args "--all"
      then exists c,
             lastClient args c /\ In c validClients /\ client result = Some c
      else client result = None)
  /\ includes args "--help" = false
  /\ includes args "-h" = false.
Proof.
  intros H. exact (parseSetupArgs_loop_returns args noOptions result H).
Qed.

Lemma parseSetupArgs_returns_witness :
  exists c,
    lastClient ["--all"; "-y"; "--client"; "cursor"; "--verbose"; "--yes"] c
    /\ In c validClients
    /\ client {| client := Some "cursor"; yes := Some true; dryRun := None;
                 print := None; writeSecrets := None |}
       = Some c.
Proof.
  exact (proj1 (proj2 (proj2 (proj2 (proj2
           (parseSetupArgs_returns
              ["--all"; "-y"; "--client"; "cursor"; "--verbose"; "--yes"]
              {| client := Some "cursor"; yes := Some true; dryRun := None;
                 print := None; writeSecrets := None |} eq_refl)))))).
Defined.

(** Where the loop exits: after a first part of the arguments that is parsed
    without exit, at a help flag, or at a [--client] that nothing follows or
    that the empty string or a name that is no valid client follows. *)
Lemma parseSetupArgs_loop_exits (args : list string) :
  forall (options : SetupOptions) (code : nat) (printed : string),
    parseSetupArgs_loop args options = Exits code printed ->
    exists before rest reached,
      args = (before ++ rest)%list
      /\ parseSetupArgs_loop before options = Returns reached
      /\ ((code = 0 /\ printed = setupHelp
           /\ exists h after, rest = h :: after /\ (h = "--help" \/ h = "-h"))
          \/ (code = 1
              /\ exists tail,
                   rest = "--client" :: tail
                   /\ printed = invalidClient (hd_error tail)
                   /\ match tail with
                      | [] => True
                      | a :: _ => a = "" \/ ~ In a validClients
                      end)).
Proof.
  induction args as [|arg rest IH IH2] using args_ind2;
    intros options code printed.
  - discriminate.
  - cbn [parseSetupArgs_loop].
    switch_on arg; simplify_switch;
      try (intros H;
           apply IH in H as (before & rst & reached & -> & Hret & Hcase);
           eexists (_ :: before), rst, reached;
           split; [reflexivity|]; split; [|exact Hcase];
           cbn [parseSetupArgs_loop]; simplify_switch; exact Hret).
    + destruct rest as [|clientArg rest'].
      * intros [= <- <-]. exists [], ["--client"], options.
        repeat split. right. split; [reflexivity|]. exists []. auto.
      * destruct (includes validClients clientArg) eqn:Hvalid.
        -- destruct (validClient_is_no_flag clientArg Hvalid)
             as (Hin & Htrue & Hflag).
           rewrite Htrue. cbn [negb orb]. intros H.
           apply (IH2 clientArg rest' eq_refl) in H
             as (before & rst & reached & -> & Hret & Hcase).
           exists ("--client" :: clientArg :: before), rst, reached.
           split; [reflexivity|]. split; [|exact Hcase].
           cbn [parseSetupArgs_loop]. simplify_switch.
           rewrite Htrue, Hvalid. exact Hret.
        -- rewrite orb_true_r. intros [= <- <-].
           exists [], ("--client" :: clientArg :: rest'), options.
           repeat split. right. split; [reflexivity|].
           exists (clientArg :: rest'). repeat split. right.
           intros Hin. apply includes_In in Hin. congruence.
    + intros [= <- <-]. exists [], ("--help" :: rest), options.
      repeat split. left. repeat split. eauto.
    + intros [= <- <-]. exists [], ("-h" :: rest), options.
      repeat split. left. repeat split. eauto.
Qed.

(** [parseSetupArgs] exits in two situations only, and at the first argument
    at which one of them arises once all arguments before it are parsed: at
    a help flag, with code 0 and the help text; or at a [--client] that
    nothing follows, or that the empty string or a name that is no valid
    client follows, with code 1 and the message that names what followed. *)
Theorem parseSetupArgs_exits (args : list string) (code : nat)
    (printed : string) :
  parseSetupArgs args = Exits code printed ->
  exists before rest reached,
    args = (before ++ rest)%list
    /\ parseSetupArgs before = Returns reached
    /\ ((code = 0 /\ printed = setupHelp
         /\ exists h after, rest = h :: after /\ (h = "--help" \/ h = "-h"))
        \/ (code = 1
            /\ exists tail,
                 rest = "--client" :: tail
                 /\ printed = invalidClient (hd_error tail)
                 /\ match tail with
                    | [] => True
                    | a :: _ => a = "" \/ ~ In a validClients
                    end)).
Proof. apply parseSetupArgs_loop_exits. Qed.

Lemma parseSetupArgs_exits_witness :
  exists before rest reached,
    ["--dry-run"; "--client"; "--yes"] = (before ++ rest)%list
    /\ parseSetupArgs before = Returns reached
    /\ ((1 = 0 /\ invalidClient (Some "--yes") = setupHelp
         /\ exists h after, rest = h :: after /\ (h = "--help" \/ h = "-h"))
        \/ (1 = 1
            /\ exists tail,
                 rest = "--client" :: tail
                 /\ invalidClient (Some "--yes") = invalidClient (hd_error tail)
                 /\ match tail with
                    | [] => True
                    | a :: _ => a = "" \/ ~ In a validClients
                    end)).
Proof.
  apply (parseSetupArgs_exits ["--dry-run"; "--client"; "--yes"] 1
           (invalidClient (Some "--yes"))).
  reflexivity.
Defined.

End SetupCliFacts.

(** * The credentials file *)

Section EnvFacts.

Import Env.













Lemma trimEnd_fixed_tail (c : ascii) (rest : string) :
  Js.trimEnd (String c rest) = String c rest -> Js.trimEnd rest = rest.
Proof.
  cbn [Js.trimEnd]. destruct (Js.trimEnd rest) as [|a kept].
  - destruct (Js.isWhiteSpace c); [discriminate|]. now intros [= <-].
  - now intros [= <-].
Qed.

Lemma trimEnd_slice (s : string) (start : nat) :
  Js.trimEnd s = s -> Js.trimEnd (slice s start) = slice s start.
Proof.
  revert s. induction start as [|n IH]; intros s Hs; cbn [slice];
    [exact Hs|].
  destruct s as [|c rest]; [reflexivity|].
  apply IH. exact (trimEnd_fixed_tail c rest Hs).
Qed.

Lemma trimEnd_trim (s : string) : Js.trimEnd (Js.trim s) = Js.trim s.
Proof. unfold Js.trim. apply trimEnd_idem. Qed.

(** The three variables of the loop never end in white space. *)
Lemma readLine_trimEnd (found : string * string * string) (line : string) :
  (let '(p, s, u) := found in
   Js.trimEnd p = p /\ Js.trimEnd s = s /\ Js.trimEnd u = u) ->
  let '(p, s, u) := readLine found line in
  Js.trimEnd p = p /\ Js.trimEnd s = s /\ Js.trimEnd u = u.
Proof.
  destruct found as [[p s] u]. intros (Hp & Hs & Hu). unfold readLine.
  pose proof (trimEnd_trim line) as Ht.
  destruct (startsWith (Js.trim line) "BENTO_PUBLISHABLE_KEY=");
    [repeat split; auto using trimEnd_slice|].
  destruct (startsWith (Js.trim line) "BENTO_SECRET_KEY=");
    [repeat split; auto using trimEnd_slice|].
  destruct (startsWith (Js.trim line) "BENTO_SITE_UUID=");
    [repeat split; auto using trimEnd_slice|].
  auto.
Qed.

Lemma readLines_trimEnd (lines : list string) :
  forall found : string * string * string,
    (let '(p, s, u) := found in
     Js.trimEnd p = p /\ Js.trimEnd s = s /\ Js.trimEnd u = u) ->
    let '(p, s, u) := fold_left readLine lines found in
    Js.trimEnd p = p /\ Js.trimEnd s = s /\ Js.trimEnd u = u.
Proof.
  induction lines as [|line lines IH]; intros found H; cbn [fold_left];
    [exact H|].
  apply IH. now apply readLine_trimEnd.
Qed.

(** [loadCredentials] gives all three values or nothing: a result comes from
    a file that exists and can be read, and none of its values is empty or
    ends in white space; without the file, or when reading it throws, the
    result is [null]. *)
Theorem loadCredentials_all_or_nothing (fileExists : bool)
    (read : option string) :
  (forall creds,
      loadCredentials fileExists read = Some creds ->
      fileExists = true
      /\ (exists content, read = Some content)
      /\ publishableKey creds <> "" /\ secretKey creds <> ""
      /\ siteUuid creds <> ""
      /\ Js.trimEnd (publishableKey creds) = publishableKey creds
      /\ Js.trimEnd (secretKey creds) = secretKey creds
      /\ Js.trimEnd (siteUuid creds) = siteUuid creds)
  /\ (fileExists = false \/ read = None ->
      loadCredentials fileExists read = None).
Proof.
  split.
  - intros creds. unfold loadCredentials.
    destruct fileExists; [|discriminate]. cbn [negb].
    destruct read as [content|]; [|discriminate].
    pose proof (readLines_trimEnd (splitLines content) ("", "", "")
                  (conj eq_refl (conj eq_refl eq_refl))) as Hinv.
    destruct (fold_left readLine (splitLines content) ("", "", ""))
      as [[p s] u].
    destruct Hinv as (Hp & Hs & Hu).
    destruct (Js.toBoolean (Some p)) eqn:Tp; [|discriminate].
    destruct (Js.toBoolean (Some s)) eqn:Ts; [|discriminate].
    destruct (Js.toBoolean (Some u)) eqn:Tu; [|discriminate].
    cbn [andb]. intros [= <-]. cbn [publishableKey secretKey siteUuid].
    apply toBoolean_true in Tp as (? & [= <-] & Tp).
    apply toBoolean_true in Ts as (? & [= <-] & Ts).
    apply toBoolean_true in Tu as (? & [= <-] & Tu).
    repeat split; eauto.
  - intros [->| ->]; [reflexivity|].
    unfold loadCredentials. now destruct (negb fileExists).
Qed.

Lemma loadCredentials_all_or_nothing_witness :
  loadCredentials true None = None.
Proof.
  apply (proj2 (loadCredentials_all_or_nothing true None)).
  right. reflexivity.
Defined.

End EnvFacts.
